(** * Station-Manager/email: outbound mail delivery

    A shallow embedding of the package's configuration validator, SMTP
    transport negotiation, delivery orchestrator, lifecycle guard and MIME
    composer, followed by the properties established about them.

    Go strings are byte sequences and are modelled by [string]; Go [int] and
    [time.Duration] values are modelled by [Z], with the 64-bit wrap-around
    of [time.Duration] products written out. *)

From Stdlib Require Import String Ascii List ZArith NArith Lia Bool.
From Stdlib Require Import DecimalString Permutation.
Import ListNotations.

Open Scope list_scope.
Open Scope string_scope.
Open Scope Z_scope.

(* ================================================================== *)
(** * Go runtime and standard library                                  *)
(* ================================================================== *)

(** The two bytes that end a protocol line, and the double-quote byte. *)
Definition CRLF : string := String "013" (String "010" EmptyString).
Definition DQUOTE : string := String "034" EmptyString.

(** A call either returns or panics (nil pointer dereference). *)
Inductive outcome (A : Type) : Type :=
| Returns (a : A)
| Panics.
Arguments Returns {A} a.
Arguments Panics {A}.

(** Two's-complement wrap-around of a 64-bit signed product. *)
Definition wrap64 (z : Z) : Z := (z + 2 ^ 63) mod 2 ^ 64 - 2 ^ 63.

Module strings.

Definition byteIn (c : ascii) (codes : list N) : bool :=
  existsb (N.eqb (N_of_ascii c)) codes.

(** The [asciiSpace] table of package strings. *)
Definition asciiSpace (c : ascii) : bool :=
  byteIn c [9; 10; 11; 12; 13; 32]%N.

(** UTF-8 encodings of the runes beyond ASCII that [unicode.IsSpace]
    accepts: U+0085 and U+00A0 take two bytes; U+1680, U+2000..U+200A,
    U+2028, U+2029, U+202F, U+205F and U+3000 take three. *)
Definition space2 (c d : ascii) : bool :=
  byteIn c [0xC2]%N && byteIn d [0x85; 0xA0]%N.

Definition space3 (c d e : ascii) : bool :=
  (byteIn c [0xE1]%N && byteIn d [0x9A]%N && byteIn e [0x80]%N)
  || (byteIn c [0xE2]%N && byteIn d [0x80]%N
      && byteIn e [0x80; 0x81; 0x82; 0x83; 0x84; 0x85; 0x86; 0x87; 0x88;
                   0x89; 0x8A; 0xA8; 0xA9; 0xAF]%N)
  || (byteIn c [0xE2]%N && byteIn d [0x81]%N && byteIn e [0x9F]%N)
  || (byteIn c [0xE3]%N && byteIn d [0x80]%N && byteIn e [0x80]%N).

(** Leading white space: ASCII bytes directly, other runes by decoding. *)
Fixpoint trimLeft (s : string) : string :=
  match s with
  | EmptyString => s
  | String c r =>
      if asciiSpace c then trimLeft r
      else match r with
           | EmptyString => s
           | String d r2 =>
               if space2 c d then trimLeft r2
               else match r2 with
                    | EmptyString => s
                    | String e r3 => if space3 c d e then trimLeft r3 else s
                    end
           end
  end.

(** Trailing white space, read on the reversed byte sequence: the last
    rune is decoded backwards from the end of the string. *)
Fixpoint trimLeftRev (s : list ascii) : list ascii :=
  match s with
  | [] => s
  | e :: r =>
      if asciiSpace e then trimLeftRev r
      else match r with
           | [] => s
           | d :: r2 =>
               if space2 d e then trimLeftRev r2
               else match r2 with
                    | [] => s
                    | c :: r3 => if space3 c d e then trimLeftRev r3 else s
                    end
           end
  end.

Definition trimRight (s : string) : string :=
  string_of_list_ascii (rev (trimLeftRev (rev (list_ascii_of_string s)))).

Definition TrimSpace (s : string) : string := trimRight (trimLeft s).

(** [strings.Contains]: [substr] occurs somewhere in [s]. *)
Fixpoint Contains (s substr : string) : bool :=
  String.prefix substr s
  || match s with
     | EmptyString => false
     | String _ r => Contains r substr
     end.

(** Index of the first / last byte [c] of [s], or -1. *)
Fixpoint IndexByte (s : string) (c : ascii) : Z :=
  match s with
  | EmptyString => -1
  | String a r =>
      if Ascii.eqb a c then 0
      else let i := IndexByte r c in if i <? 0 then -1 else i + 1
  end.

Fixpoint LastIndexByte (s : string) (c : ascii) : Z :=
  match s with
  | EmptyString => -1
  | String a r =>
      let i := LastIndexByte r c in
      if 0 <=? i then i + 1 else if Ascii.eqb a c then 0 else -1
  end.

(** [strings.Join]. *)
Fixpoint Join (elems : list string) (sep : string) : string :=
  match elems with
  | [] => ""
  | [x] => x
  | x :: rest => x ++ sep ++ Join rest sep
  end.

End strings.

(** Slices [s[i:j]] and [s[i:]], and the byte [s[i]], for indices in range. *)
Definition slice (s : string) (i j : Z) : string :=
  substring (Z.to_nat i) (Z.to_nat (j - i)) s.
Definition sliceFrom (s : string) (i : Z) : string :=
  slice s i (Z.of_nat (String.length s)).
Definition byteAt (s : string) (i : Z) : option ascii := String.get (Z.to_nat i) s.
Definition len (s : string) : Z := Z.of_nat (String.length s).

Module strconv.
(** Decimal rendering of an integer ([strconv.Itoa], [%d]). *)
Definition Itoa (i : Z) : string := NilZero.string_of_int (Z.to_int i).
End strconv.

(* ================================================================== *)
(** * Errors                                                           *)
(* ================================================================== *)

Definition Op : Type := string.

(** An error value: either a plain message ([fmt.Errorf], or an error
    handed back by a library or a collaborator), or a detailed error of
    package errors carrying the operation, an optional cause and a message. *)
#[warnings="-register-all"]
Inductive error : Type :=
| Errorf (msg : string)
| Detailed (op : Op) (cause : option error) (msg : string).

Module errors.
Definition New (op : Op) : error := Detailed op None "".
Definition Err (cause : error) (e : error) : error :=
  match e with
  | Detailed op _ msg => Detailed op (Some cause) msg
  | Errorf _ => e
  end.
Definition Msg (msg : string) (e : error) : error :=
  match e with
  | Detailed op cause _ => Detailed op cause msg
  | Errorf _ => e
  end.
End errors.

Module net.

Definition colon : ascii := ":"%char.
Definition lbrack : ascii := "["%char.
Definition rbrack : ascii := "]"%char.

(** [net.JoinHostPort]: a host with a colon is taken for a literal IPv6
    address and bracketed. *)
Definition JoinHostPort (host port : string) : string :=
  if 0 <=? strings.IndexByte host colon
  then "[" ++ host ++ "]:" ++ port
  else host ++ ":" ++ port.

Definition addrErr (addr why : string) : error :=
  Errorf ("address " ++ addr ++ ": " ++ why).

(** [net.SplitHostPort], returning the host and the port or the error. *)
Definition SplitHostPort (hostport : string) : (string * string) + error :=
  let missingPort := "missing port in address" in
  let tooManyColons := "too many colons in address" in
  let i := strings.LastIndexByte hostport colon in
  if i <? 0 then inr (addrErr hostport missingPort)
  else
    let bracketed :=
      if match byteAt hostport 0 with
         | Some c => Ascii.eqb c lbrack
         | None => false
         end
      then
        let e := strings.IndexByte hostport rbrack in
        if e <? 0 then inr (addrErr hostport "missing ']' in address")
        else if e + 1 =? len hostport
             then inr (addrErr hostport missingPort)
        else if e + 1 =? i
             then inl (slice hostport 1 e, 1, e + 1)
        else if match byteAt hostport (e + 1) with
                | Some c => Ascii.eqb c colon
                | None => false
                end
             then inr (addrErr hostport tooManyColons)
        else inr (addrErr hostport missingPort)
      else
        let host := slice hostport 0 i in
        if 0 <=? strings.IndexByte host colon
        then inr (addrErr hostport tooManyColons)
        else inl (host, 0, 0)
    in
    match bracketed with
    | inr err => inr err
    | inl (host, j, k) =>
        if 0 <=? strings.IndexByte (sliceFrom hostport j) lbrack
        then inr (addrErr hostport "unexpected '[' in address")
        else if 0 <=? strings.IndexByte (sliceFrom hostport k) rbrack
        then inr (addrErr hostport "unexpected ']' in address")
        else inl (host, sliceFrom hostport (i + 1))
    end.

End net.

(* ================================================================== *)
(** * Configuration and service state                                  *)
(* ================================================================== *)

Module types.
(** The fields of [types.EmailConfig] that the package reads. *)
Record EmailConfig : Type := {
  Enabled : bool;
  Host : string;
  Port : Z;
  Username : string;
  Password : string;
  From : string;
  To : string;
  Subject : string;
  Body : string;
  SmtpDialTimeoutSec : Z;
  SmtpRetryCount : Z;
  SmtpRetryDelaySec : Z
}.

Definition withEnabled (b : bool) (c : EmailConfig) : EmailConfig :=
  {| Enabled := b; Host := Host c; Port := Port c; Username := Username c;
     Password := Password c; From := From c; To := To c;
     Subject := Subject c; Body := Body c;
     SmtpDialTimeoutSec := SmtpDialTimeoutSec c;
     SmtpRetryCount := SmtpRetryCount c;
     SmtpRetryDelaySec := SmtpRetryDelaySec c |}.
End types.

(** The service. A nil pointer is [None]. The config provider is known by
    what its [EmailConfig()] call hands back; the logger is an opaque sink.
    [initOnce] is the done flag of the [sync.Once]. *)
Record Service : Type := {
  ConfigService : option (types.EmailConfig + error);
  LoggerService : option unit;
  Config : option types.EmailConfig;
  isInitialized : bool;
  initOnce : bool
}.

Record MsgDef : Type := {
  From : string;
  To : list string;
  Msg : string
}.

(** The zero value [MsgDef{}]. *)
Definition MsgDef_zero : MsgDef := {| From := ""; To := []; Msg := "" |}.

(** One second, as a [time.Duration] (nanoseconds). *)
Definition Second : Z := 1000000000.

(* ================================================================== *)
(** * Address and configuration validator (internal.go)                *)
(* ================================================================== *)

Definition validateConfig (s : Service) (op : Op) : outcome (option error) :=
  match Config s with
  | None => Panics
  | Some cfg =>
      let host := strings.TrimSpace (types.Host cfg) in
      if (host =? "")%string then
        Returns (Some (errors.Msg "email host cannot be empty" (errors.New op)))
      else if strings.Contains host " " then
        Returns (Some (errors.Msg "email host cannot contain spaces" (errors.New op)))
      else if (types.Port cfg <=? 0) || (types.Port cfg >? 65535) then
        Returns (Some (errors.Msg "email port must be between 1 and 65535"
                         (errors.New op)))
      else
        let addr := net.JoinHostPort host (strconv.Itoa (types.Port cfg)) in
        match net.SplitHostPort addr with
        | inr err =>
            Returns (Some (errors.Msg "invalid host or port for email config"
                             (errors.Err err (errors.New op))))
        | inl _ =>
            let from := strings.TrimSpace (types.From cfg) in
            if (from =? "")%string then
              Returns (Some (errors.Msg "email from address cannot be empty"
                               (errors.New op)))
            else
              let username := strings.TrimSpace (types.Username cfg) in
              let password := strings.TrimSpace (types.Password cfg) in
              if (username =? "")%string && negb (password =? "")%string then
                Returns (Some (errors.Msg
                  "email username must be set when password is provided"
                  (errors.New op)))
              else if (password =? "")%string && negb (username =? "")%string then
                Returns (Some (errors.Msg
                  "email password must be set when username is provided"
                  (errors.New op)))
              else Returns None
        end
  end.

(* ================================================================== *)
(** * Transport negotiator (internal.go and its later revision)        *)
(* ================================================================== *)

(** The value of [smtp.PlainAuth(identity, username, password, host)]. *)
Record PlainAuth : Type := {
  identity : string;
  username : string;
  password : string;
  authHost : string
}.

(** What the negotiator asks of the network and of the SMTP client: the two
    dials, closing the raw connection, and the client's calls. *)
Inductive Cmd : Type :=
| DialTLS (timeout : Z) (addr serverName : string)
| DialTCP (timeout : Z) (addr : string)
| ConnClose
| NewClient (host : string)
| Hello (localName : string)
| StartTLS (serverName : string)
| Auth (a : PlainAuth)
| Mail (from : string)
| Rcpt (addr : string)
| Data
| Write (msg : string)
| DataClose
| Quit
| ClientClose.

(** The far side of the connection together with the SMTP client library:
    every command is answered with nil or an error and moves the peer to a
    new state; [extension] reads the capabilities learnt by the last
    greeting; [hostname] is the value of [resolveHostname()]. *)
Class Peer (Net : Type) : Type := {
  respond : Net -> Cmd -> option error * Net;
  extension : Net -> string -> bool;
  hostname : string
}.

Definition Trace : Type := list (Cmd * option error).

(** Commands that carry credentials, the envelope or the payload. *)
Definition sensitive (c : Cmd) : bool :=
  match c with
  | Auth _ | Mail _ | Rcpt _ | Data | Write _ => true
  | _ => false
  end.

(** Whether the channel in use is encrypted once a command was answered:
    an implicit-TLS dial or a STARTTLS upgrade that succeeded secures it, any
    other dial leaves a connection that is not. *)
Definition securedAfter (secured : bool) (x : Cmd * option error) : bool :=
  match x with
  | (DialTLS _ _ _, None) => true
  | (DialTLS _ _ _, Some _) => false
  | (DialTCP _ _, _) => false
  | (StartTLS _, None) => true
  | _ => secured
  end.

Definition secureAfter (tr : Trace) : bool := fold_left securedAfter tr false.

(** No sensitive command is found in the trace at a point where the channel
    is not encrypted; [secured] tells whether it is when the trace starts. *)
Fixpoint noPlaintext (secured : bool) (tr : Trace) : bool :=
  match tr with
  | [] => true
  | x :: rest =>
      if sensitive (fst x) && negb secured then false
      else noPlaintext (securedAfter secured x) rest
  end.

(** The payload was written in full and the data section closed with the
    server's acceptance. *)
Definition isWritten (x : Cmd * option error) : bool :=
  match x with
  | (Write _, None) => true
  | _ => false
  end.

Definition isClosed (x : Cmd * option error) : bool :=
  match x with
  | (DataClose, None) => true
  | _ => false
  end.

Definition accepted (tr : Trace) : bool :=
  existsb isWritten tr && existsb isClosed tr.

Definition isQuit (x : Cmd * option error) : bool :=
  match x with
  | (Quit, _) => true
  | _ => false
  end.

Definition isRcpt (x : Cmd * option error) : bool :=
  match x with
  | (Rcpt _, _) => true
  | _ => false
  end.

Definition isDial (c : Cmd) : bool :=
  match c with
  | DialTLS _ _ _ | DialTCP _ _ => true
  | _ => false
  end.

(** The connections opened in a trace. *)
Definition dials (tr : Trace) : list Cmd := filter isDial (map fst tr).

Section Session.
Context {Net : Type} {peer : Peer Net}.

(** A session step threads the peer's state and the trace of answered
    commands. *)
Definition Sess (A : Type) : Type := Net * Trace -> A * (Net * Trace).

Definition sret {A} (a : A) : Sess A := fun st => (a, st).

Definition sbind {A B} (c : Sess A) (k : A -> Sess B) : Sess B :=
  fun st => let (a, st') := c st in k a st'.

Definition issue (c : Cmd) : Sess (option error) :=
  fun st =>
    let (r, n') := respond (fst st) c in
    (r, (n', (snd st ++ [(c, r)])%list)).

Definition Extension (ext : string) : Sess bool :=
  fun st => (extension (fst st) ext, st).

(** [if err := c; err != nil { return f(err) }; k]. *)
Definition orReturn (f : error -> error) (c k : Sess (option error))
  : Sess (option error) :=
  sbind c (fun r =>
    match r with
    | Some e => sret (Some (f e))
    | None => k
    end).

(** [defer d]: [d] runs once the body has produced its result. *)
Definition defer {A} (d : Sess (option error)) (body : Sess A) : Sess A :=
  sbind body (fun r => sbind d (fun _ => sret r)).

End Session.

Declare Scope sess_scope.
Notation "x <- c ;; k" := (sbind c (fun x => k))
  (at level 61, c at next level, right associativity) : sess_scope.
Delimit Scope sess_scope with sess.

(** The negotiator of src/internal.go. *)
Module Internal.
Section Transport.
Context {Net : Type} {peer : Peer Net}.
Open Scope sess_scope.

Definition plain (e : error) : error := e.

Fixpoint rcptEach (to : list string) : Sess (option error) :=
  match to with
  | [] => sret None
  | addr :: rest => orReturn plain (issue (Rcpt addr)) (rcptEach rest)
  end.

Definition sendWithClient (host : string) (auth : option PlainAuth)
    (from : string) (to : list string) (msg : string) (alreadyTLS : bool)
  : Sess (option error) :=
  err <- issue (NewClient host) ;;
  match err with
  | Some e => _ <- issue ConnClose ;; sret (Some e)
  | None =>
    defer (issue ClientClose)
     (orReturn plain (issue (Hello hostname))
     (orReturn plain
        (if negb alreadyTLS then
           ok <- Extension "STARTTLS" ;;
           if negb ok then
             sret (Some (Errorf
               "smtp server does not support STARTTLS; TLS required"))
           else
             orReturn plain (issue (StartTLS host)) (issue (Hello hostname))
         else sret None)
     (orReturn plain
        (match auth with
         | Some a => issue (Auth a)
         | None => sret None
         end)
     (orReturn plain (issue (Mail from))
     (orReturn plain (rcptEach to)
     (orReturn plain (issue Data)
     (w <- issue (Write msg) ;;
      match w with
      | Some e => _ <- issue DataClose ;; sret (Some e)
      | None =>
          orReturn plain (issue DataClose)
            (q <- issue Quit ;;
             match q with
             | Some _ => sret None
             | None => sret None
             end)
      end)))))))
  end.

Definition tryImplicitTLS (smtpDialTimeout : Z) (host addr : string)
    (auth : option PlainAuth) (from : string) (to : list string)
    (msg : string) : Sess (option error) :=
  err <- issue (DialTLS smtpDialTimeout addr host) ;;
  match err with
  | Some e => sret (Some e)
  | None => sendWithClient host auth from to msg true
  end.

Definition tryStartTLS (smtpDialTimeout : Z) (host addr : string)
    (auth : option PlainAuth) (from : string) (to : list string)
    (msg : string) : Sess (option error) :=
  err <- issue (DialTCP smtpDialTimeout addr) ;;
  match err with
  | Some e => sret (Some e)
  | None => sendWithClient host auth from to msg false
  end.

Definition sendMailWithTLS (smtpDialTimeout : Z) (addr : string)
    (auth : option PlainAuth) (from : string) (to : list string)
    (msg : string) : Sess (option error) :=
  let op : Op := "email.sendMailWithTLS" in
  match net.SplitHostPort addr with
  | inr err =>
      sret (Some (errors.Msg "invalid smtp address"
                    (errors.Err err (errors.New op))))
  | inl (host, _) =>
      err <- tryImplicitTLS smtpDialTimeout host addr auth from to msg ;;
      match err with
      | None => sret None
      | Some _ => tryStartTLS smtpDialTimeout host addr auth from to msg
      end
  end.

End Transport.
End Internal.

(** The negotiator of src/unnamed/part_000, the revision of internal.go
    that wraps the errors it returns. *)
Module Part000.
Section Transport.
Context {Net : Type} {peer : Peer Net}.
Open Scope sess_scope.

Definition wrap (op : Op) (e : error) : error := errors.Err e (errors.New op).
Definition plain (e : error) : error := e.

Fixpoint rcptEach (op : Op) (to : list string) : Sess (option error) :=
  match to with
  | [] => sret None
  | addr :: rest => orReturn (wrap op) (issue (Rcpt addr)) (rcptEach op rest)
  end.

Definition sendWithClient (host : string) (auth : option PlainAuth)
    (from : string) (to : list string) (msg : string) (alreadyTLS : bool)
  : Sess (option error) :=
  let op : Op := "email.sendWithClient" in
  err <- issue (NewClient host) ;;
  match err with
  | Some e =>
      cerr <- issue ConnClose ;;
      match cerr with
      | Some ce => sret (Some (wrap op ce))
      | None => sret (Some (wrap op e))
      end
  | None =>
    defer (issue ClientClose)
     (orReturn (wrap op) (issue (Hello hostname))
     (orReturn plain
        (if negb alreadyTLS then
           ok <- Extension "STARTTLS" ;;
           if negb ok then
             sret (Some (errors.Msg
               "smtp server does not support STARTTLS; TLS required"
               (errors.New op)))
           else
             orReturn (wrap op) (issue (StartTLS host))
               (orReturn (wrap op) (issue (Hello hostname)) (sret None))
         else sret None)
     (orReturn (wrap op)
        (match auth with
         | Some a => issue (Auth a)
         | None => sret None
         end)
     (orReturn plain (issue (Mail from))
     (orReturn plain (rcptEach op to)
     (orReturn plain (issue Data)
     (w <- issue (Write msg) ;;
      match w with
      | Some e =>
          cerr <- issue DataClose ;;
          match cerr with
          | Some ce => sret (Some (wrap op ce))
          | None => sret (Some (wrap op e))
          end
      | None =>
          orReturn (wrap op) (issue DataClose)
            (q <- issue Quit ;;
             match q with
             | Some _ => sret None
             | None => sret None
             end)
      end)))))))
  end.

Definition tryImplicitTLS (smtpDialTimeout : Z) (host addr : string)
    (auth : option PlainAuth) (from : string) (to : list string)
    (msg : string) : Sess (option error) :=
  let op : Op := "email.tryImplicitTLS" in
  err <- issue (DialTLS smtpDialTimeout addr host) ;;
  match err with
  | Some e => sret (Some (wrap op e))
  | None => sendWithClient host auth from to msg true
  end.

Definition tryStartTLS (smtpDialTimeout : Z) (host addr : string)
    (auth : option PlainAuth) (from : string) (to : list string)
    (msg : string) : Sess (option error) :=
  let op : Op := "email.tryStartTLS" in
  err <- issue (DialTCP smtpDialTimeout addr) ;;
  match err with
  | Some e => sret (Some (wrap op e))
  | None => sendWithClient host auth from to msg false
  end.

Definition sendMailWithTLS (smtpDialTimeout : Z) (addr : string)
    (auth : option PlainAuth) (from : string) (to : list string)
    (msg : string) : Sess (option error) :=
  let op : Op := "email.sendMailWithTLS" in
  match net.SplitHostPort addr with
  | inr err =>
      sret (Some (errors.Msg "invalid smtp address"
                    (errors.Err err (errors.New op))))
  | inl (host, _) =>
      err <- tryImplicitTLS smtpDialTimeout host addr auth from to msg ;;
      match err with
      | None => sret None
      | Some _ => tryStartTLS smtpDialTimeout host addr auth from to msg
      end
  end.

End Transport.
End Part000.

(* ================================================================== *)
(** * Lifecycle guard and delivery orchestrator                        *)
(* ================================================================== *)

(** What a call makes observable outside the service: the notifications
    handed to the logging collaborator (the calls on [s.LoggerService]; the
    repository's tests run [Send] without a logger and expect it to return
    normally, so these calls do not panic on a nil logger), the pauses, and
    each invocation of the transport with the value it returned. *)
Inductive Event : Type :=
| EvWarn (msg : string)
| EvError (err : error) (host addr : string) (attempt : Z) (msg : string)
| EvInfo (host addr : string) (msg : string)
| EvSleep (d : Z)
| EvSendMail (addr : string) (auth : option PlainAuth) (from : string)
    (to : list string) (msg : string) (ret : option error).

(** The package-level indirection [sendMailFn]: a transport with a state of
    its own, which is given the current [smtpDialTimeout]. *)
Class Transport (T : Type) : Type :=
  sendMailFn : Z -> string -> option PlainAuth -> string -> list string ->
               string -> T -> option error * T.

(** The negotiator is the transport the package installs ([var sendMailFn =
    sendMailWithTLS]); its state is the peer's together with the trace. *)
#[export] Instance sendMailWithTLS_Transport {Net : Type} {peer : Peer Net}
  : Transport (Net * Trace) :=
  fun timeout addr auth from to msg st =>
    Part000.sendMailWithTLS timeout addr auth from to msg st.

(** Modelled from the spec: the constant [errMsgNotInitialized] is declared
    in a file of the package that is not available; the specification calls
    it a not-initialized error. *)
Definition errMsgNotInitialized : string := "email service is not initialized".

(** The service, the package-level [smtpDialTimeout], the transport's state
    and the events so far. *)
Record Machine (T : Type) : Type := {
  service : Service;
  smtpDialTimeout : Z;
  world : T;
  events : list Event
}.
Arguments service {T} m.
Arguments smtpDialTimeout {T} m.
Arguments world {T} m.
Arguments events {T} m.

Section ServiceMonad.
Context {T : Type}.

Definition M (A : Type) : Type := Machine T -> outcome A * Machine T.

Definition ret {A} (a : A) : M A := fun m => (Returns a, m).

Definition bind {A B} (c : M A) (k : A -> M B) : M B :=
  fun m =>
    match c m with
    | (Returns a, m') => k a m'
    | (Panics, m') => (Panics, m')
    end.

(** Reading a field of the receiver. *)
Definition load {A} (f : Service -> A) : M A :=
  fun m => (Returns (f (service m)), m).

(** Assigning to the receiver. *)
Definition store (upd : Service -> Service) : M unit :=
  fun m =>
    (Returns tt,
     {| service := upd (service m); smtpDialTimeout := smtpDialTimeout m;
        world := world m; events := events m |}).

(** Dereferencing [s.Config]. *)
Definition derefConfig : M types.EmailConfig :=
  fun m =>
    match Config (service m) with
    | Some cfg => (Returns cfg, m)
    | None => (Panics, m)
    end.

Definition setDialTimeout (d : Z) : M unit :=
  fun m =>
    (Returns tt,
     {| service := service m; smtpDialTimeout := d;
        world := world m; events := events m |}).

Definition emit (e : Event) : M unit :=
  fun m =>
    (Returns tt,
     {| service := service m; smtpDialTimeout := smtpDialTimeout m;
        world := world m; events := (events m ++ [e])%list |}).

Definition lift {A} (o : outcome A) : M A := fun m => (o, m).

Definition setInitOnce (s : Service) : Service :=
  {| ConfigService := ConfigService s; LoggerService := LoggerService s;
     Config := Config s; isInitialized := isInitialized s;
     initOnce := true |}.

Definition setConfig (c : option types.EmailConfig) (s : Service) : Service :=
  {| ConfigService := ConfigService s; LoggerService := LoggerService s;
     Config := c; isInitialized := isInitialized s;
     initOnce := initOnce s |}.

Definition setInitialized (b : bool) (s : Service) : Service :=
  {| ConfigService := ConfigService s; LoggerService := LoggerService s;
     Config := Config s; isInitialized := b; initOnce := initOnce s |}.

(** [s.initOnce.Do(f)]: [f] runs on the first call only, and the call is
    marked done whether [f] returns or panics. The closure's captured
    variable keeps its initial value [dflt] when [f] does not run. *)
Definition initOnce_Do {A} (dflt : A) (f : M A) : M A :=
  fun m =>
    if initOnce (service m) then (Returns dflt, m)
    else
      let (r, m') := f m in
      (r, {| service := setInitOnce (service m');
             smtpDialTimeout := smtpDialTimeout m';
             world := world m'; events := events m' |}).

Definition call_sendMailFn {tr : Transport T} (addr : string)
    (auth : option PlainAuth) (from : string) (to : list string)
    (msg : string) : M (option error) :=
  fun m =>
    let (r, w') := sendMailFn (smtpDialTimeout m) addr auth from to msg
                     (world m) in
    (Returns r,
     {| service := service m; smtpDialTimeout := smtpDialTimeout m;
        world := w';
        events := (events m ++ [EvSendMail addr auth from to msg r])%list |}).

End ServiceMonad.

Declare Scope svc_scope.
Delimit Scope svc_scope with svc.
Notation "x <- c ;; k" := (bind c (fun x => k))
  (at level 61, c at next level, right associativity) : svc_scope.
Notation "c ;;; k" := (bind c (fun _ => k))
  (at level 61, right associativity) : svc_scope.

(** The lifecycle guard of src/service.go. *)
Module ServiceGo.
Section Defs.
Context {T : Type}.
Open Scope svc_scope.

Definition Initialize : M (T := T) (option error) :=
  let op : Op := "email.Service.Initialize" in
  inited <- load isInitialized ;;
  if inited then ret None
  else
    initOnce_Do None
      (logger <- load LoggerService ;;
       match logger with
       | None =>
           ret (Some (errors.Msg "logger service has not been set/injected"
                        (errors.New op)))
       | Some _ =>
           cfg <- load Config ;;
           cs <- load ConfigService ;;
           match cfg, cs with
           | None, None =>
               ret (Some (errors.Msg
                 "application config has not been set/injected"
                 (errors.New op)))
           | _, _ =>
               s <- load (fun s => s) ;;
               v <- lift (validateConfig s op) ;;
               match v with
               | Some err => ret (Some err)
               | None => store (setInitialized true) ;;; ret None
               end
           end
       end).

End Defs.
End ServiceGo.

(** The service of the package's main file, src/unnamed/part_001. *)
Section ServiceDefs.
Context {T : Type} {tr : Transport T}.
Open Scope svc_scope.

(** The dial timeout derived from the configuration. *)
Definition dialTimeoutOf (cfg : types.EmailConfig) : Z :=
  if types.SmtpDialTimeoutSec cfg >? 0 then
    let d := wrap64 (types.SmtpDialTimeoutSec cfg * Second) in
    let d := if d <? Second then Second else d in
    let d := if d >? 60 * Second then 60 * Second else d in
    d
  else 10 * Second.

Definition Initialize : M (T := T) (option error) :=
  let op : Op := "email.Service.Initialize" in
  inited <- load isInitialized ;;
  if inited then ret None
  else
    initOnce_Do None
      (logger <- load LoggerService ;;
       match logger with
       | None =>
           ret (Some (errors.Msg "logger service has not been set/injected"
                        (errors.New op)))
       | Some _ =>
           cs <- load ConfigService ;;
           match cs with
           | None =>
               ret (Some (errors.Msg
                 "application config has not been set/injected"
                 (errors.New op)))
           | Some (inr err) =>
               ret (Some (errors.Msg "getting email config"
                            (errors.Err err (errors.New op))))
           | Some (inl cfg) =>
               store (setConfig (Some cfg)) ;;;
               s <- load (fun s => s) ;;
               v <- lift (validateConfig s op) ;;
               match v with
               | Some err =>
                   store (setConfig (Some (types.withEnabled false cfg))) ;;;
                   ret (Some err)
               | None =>
                   setDialTimeout (dialTimeoutOf cfg) ;;;
                   store (setInitialized true) ;;;
                   ret None
               end
           end
       end).

(** The retry count and the pause between attempts, both floored at zero. *)
Definition retriesOf (cfg : types.EmailConfig) : Z :=
  if types.SmtpRetryCount cfg <? 0 then 0 else types.SmtpRetryCount cfg.

Definition delayOf (cfg : types.EmailConfig) : Z :=
  let delay := wrap64 (types.SmtpRetryDelaySec cfg * Second) in
  if delay <=? 0 then 0 else delay.

(** The loop [for attempt := 0; attempt <= retries; attempt++], by the
    number of iterations that remain; [lastErr] is the loop's variable. *)
Fixpoint attempts (remaining : nat) (attempt delay : Z) (host addr : string)
    (auth : option PlainAuth) (from : string) (to : list string)
    (msg : string) (lastErr : option error) : M (T := T) (option error) :=
  match remaining with
  | O => ret lastErr
  | S k =>
      (if (attempt >? 0) && (delay >? 0) then emit (EvSleep delay)
       else ret tt) ;;;
      r <- call_sendMailFn addr auth from to msg ;;
      match r with
      | Some err =>
          emit (EvError err host addr (attempt + 1) "email send failed") ;;;
          attempts k (attempt + 1) delay host addr auth from to msg (Some err)
      | None =>
          emit (EvInfo host addr "email sent") ;;;
          ret None
      end
  end.

Definition Send (email : MsgDef) : M (T := T) (option error) :=
  let op : Op := "email.Service.Send" in
  inited <- load isInitialized ;;
  if negb inited then
    ret (Some (errors.Msg errMsgNotInitialized (errors.New op)))
  else
    cfg <- derefConfig ;;
    if negb (types.Enabled cfg) then
      emit (EvWarn "email service is disabled in the config") ;;;
      ret None
    else
      let host := strings.TrimSpace (types.Host cfg) in
      let username := strings.TrimSpace (types.Username cfg) in
      let password := strings.TrimSpace (types.Password cfg) in
      let from := strings.TrimSpace (From email) in
      let from := if (from =? "")%string
                  then strings.TrimSpace (types.From cfg) else from in
      if (from =? "")%string then
        ret (Some (errors.Msg "email from address cannot be empty"
                     (errors.New op)))
      else
        let addr := net.JoinHostPort host (strconv.Itoa (types.Port cfg)) in
        let auth := if negb (username =? "")%string
                    then Some {| identity := ""; username := username;
                                 password := password; authHost := host |}
                    else None in
        let retries := retriesOf cfg in
        let delay := delayOf cfg in
        lastErr <- attempts (Z.to_nat (retries + 1)) 0 delay host addr auth
                     from (To email) (Msg email) None ;;
        match lastErr with
        | Some e =>
            ret (Some (errors.Msg "failed to send email"
                         (errors.Err e (errors.New op))))
        | None => ret None
        end.

End ServiceDefs.

(* ================================================================== *)
(** * MIME composer                                                    *)
(* ================================================================== *)

Module textproto.

(** A Go map from field names to value lists. The list keeps one entry per
    key, in the order the keys were first set; the order in which a
    [range] visits the entries is not given by the map. *)
Definition MIMEHeader : Type := list (string * list string).

Definition code (c : ascii) : N := N_of_ascii c.
Definition isLower (c : ascii) : bool := (97 <=? code c)%N && (code c <=? 122)%N.
Definition isUpper (c : ascii) : bool := (65 <=? code c)%N && (code c <=? 90)%N.
Definition isDigit (c : ascii) : bool := (48 <=? code c)%N && (code c <=? 57)%N.

(** Bytes allowed in a header field name (RFC 7230 token). *)
Definition validHeaderFieldByte (c : ascii) : bool :=
  isLower c || isUpper c || isDigit c
  || strings.byteIn c [33; 35; 36; 37; 38; 39; 42; 43; 45; 46; 94; 95; 96;
                       124; 126]%N.

Fixpoint canon (upper : bool) (s : string) : string :=
  match s with
  | EmptyString => EmptyString
  | String c r =>
      let c' := if upper && isLower c then ascii_of_N (code c - 32)
                else if negb upper && isUpper c then ascii_of_N (code c + 32)
                else c in
      String c' (canon (Ascii.eqb c' "-") r)
  end.

(** [textproto.CanonicalMIMEHeaderKey]: a key with a byte outside the
    token set is left as it is. *)
Definition CanonicalMIMEHeaderKey (s : string) : string :=
  if forallb validHeaderFieldByte (list_ascii_of_string s)
  then canon true s else s.

Fixpoint assign (k : string) (v : list string) (h : MIMEHeader) : MIMEHeader :=
  match h with
  | [] => [(k, v)]
  | (k', v') :: rest =>
      if (k' =? k)%string then (k, v) :: rest else (k', v') :: assign k v rest
  end.

(** [h.Set(key, value)]. *)
Definition Set_ (key value : string) (h : MIMEHeader) : MIMEHeader :=
  assign (CanonicalMIMEHeaderKey key) [value] h.

End textproto.

Module multipart.

Fixpoint insertKey (x : string * list string) (l : textproto.MIMEHeader)
  : textproto.MIMEHeader :=
  match l with
  | [] => [x]
  | y :: rest =>
      if String.leb (fst x) (fst y) then x :: l else y :: insertKey x rest
  end.

Definition sortKeys (h : textproto.MIMEHeader) : textproto.MIMEHeader :=
  fold_right insertKey [] h.

Definition partLines (kv : string * list string) : string :=
  String.concat "" (map (fun v => fst kv ++ ": " ++ v ++ CRLF) (snd kv)).

(** What [w.CreatePart(header)] writes before the part's content: the
    delimiter, then the part's header with its keys sorted, then a blank
    line. [first] tells whether this is the writer's first part. *)
Definition CreatePart (boundary : string) (first : bool)
    (header : textproto.MIMEHeader) : string :=
  (if first then "--" ++ boundary ++ CRLF
   else CRLF ++ "--" ++ boundary ++ CRLF)
  ++ String.concat "" (map partLines (sortKeys header))
  ++ CRLF.

(** What [w.Close()] writes. *)
Definition Close (boundary : string) : string :=
  CRLF ++ "--" ++ boundary ++ "--" ++ CRLF.

End multipart.

(** [fmt.Sprintf] of a [%q] verb, for a string that needs no escape (a
    boundary token, a time-stamped file name). *)
Definition quoted (s : string) : string := DQUOTE ++ s ++ DQUOTE.

(** Modelled from the spec: [mapToMIMEHeader] is declared in a file of the
    package that is not available; it turns a map of single values into a
    header. *)
Definition mapToMIMEHeader (m : list (string * string)) : textproto.MIMEHeader :=
  fold_left (fun h kv => textproto.Set_ (fst kv) (snd kv) h) m [].

Definition isSeparator (c : ascii) : bool :=
  strings.asciiSpace c || Ascii.eqb c "," || Ascii.eqb c ";".

Fixpoint fieldsOf (s cur : string) : list string :=
  match s with
  | EmptyString => if (cur =? "")%string then [] else [cur]
  | String c r =>
      if isSeparator c
      then ((if (cur =? "")%string then [] else [cur]) ++ fieldsOf r "")%list
      else fieldsOf r (cur ++ String c EmptyString)
  end.

(** Modelled from the spec: [splitAndTrim] is declared in a file of the
    package that is not available; it splits on comma, semicolon and white
    space, trims the pieces and discards the empty ones. *)
Definition splitAndTrim (s : string) : list string :=
  filter (fun x => negb (x =? "")%string)
         (map strings.TrimSpace (fieldsOf s "")).

(** What a call of the composer takes from outside the package: the ADIF
    compositor, the two readings of the clock, the message identifier, the
    boundary drawn by [multipart.NewWriter], the order in which the [range]
    over the header map visits its entries, and the two encoders. *)
Record ComposeEnv (Qso : Type) : Type := {
  ComposeToAdifString : list Qso -> string + error;
  stamp : string;
  date : string;
  generateMessageID : string;
  Boundary : string;
  rangeOrder : textproto.MIMEHeader -> list (string * list string);
  base64_EncodeToString : string -> string;
  quotedprintable : string -> string
}.
Arguments ComposeToAdifString {Qso} c.
Arguments stamp {Qso} c.
Arguments date {Qso} c.
Arguments generateMessageID {Qso} c.
Arguments Boundary {Qso} c.
Arguments rangeOrder {Qso} c.
Arguments base64_EncodeToString {Qso} c.
Arguments quotedprintable {Qso} c.

Definition obind {A B} (o : outcome A) (k : A -> outcome B) : outcome B :=
  match o with
  | Returns a => k a
  | Panics => Panics
  end.

(** [s.Config.f]. *)
Definition configField {A} (s : Service) (f : types.EmailConfig -> A) : outcome A :=
  match Config s with
  | Some cfg => Returns (f cfg)
  | None => Panics
  end.

(** The header loop: one line per entry visited, entries without a value
    skipped. *)
Fixpoint writeHeaders (entries : list (string * list string)) : string :=
  match entries with
  | [] => ""
  | (k, v) :: rest =>
      (match v with
       | [] => ""
       | _ => k ++ ": " ++ strings.Join v ", " ++ CRLF
       end) ++ writeHeaders rest
  end.

(** The attachment loop [for i := 0; i < len(adifB64); i += 76]. *)
Fixpoint writeChunks (fuel : nat) (i : Z) (adifB64 : string) : string :=
  match fuel with
  | O => ""
  | S f =>
      if i <? len adifB64 then
        let e := if i + 76 >? len adifB64 then len adifB64 else i + 76 in
        slice adifB64 i e ++ CRLF ++ writeChunks f (i + 76) adifB64
      else ""
  end.

Section Composer.
Context {Qso : Type}.

(** The header map as the composer fills it. *)
Definition composeHeader (env : ComposeEnv Qso) (from : string)
    (tos : list string) (subject : string) : textproto.MIMEHeader :=
  let hdr : textproto.MIMEHeader := [] in
  let hdr := textproto.Set_ "From" from hdr in
  let hdr := textproto.Set_ "To" (strings.Join tos ", ") hdr in
  let hdr := textproto.Set_ "Subject" subject hdr in
  let hdr := textproto.Set_ "Date" (date env) hdr in
  let hdr := textproto.Set_ "Message-ID" (generateMessageID env) hdr in
  let hdr := textproto.Set_ "MIME-Version" "1.0" hdr in
  textproto.Set_ "Content-Type"
    ("multipart/mixed; boundary=" ++ quoted (Boundary env)) hdr.

(** Everything written after the blank line that ends the headers. The
    writes go to a [bytes.Buffer] and cannot fail. *)
Definition composeBody (env : ComposeEnv Qso) (msg adifContent : string)
  : string :=
  let filename := stamp env ++ "-export.adi" in
  let adifB64 := base64_EncodeToString env adifContent in
  multipart.CreatePart (Boundary env) true
    (mapToMIMEHeader
       [("Content-Type", "text/plain; charset=utf-8");
        ("Content-Transfer-Encoding", "quoted-printable")])
  ++ quotedprintable env msg
  ++ multipart.CreatePart (Boundary env) false
    (mapToMIMEHeader
       [("Content-Type", "application/octet-stream; name=" ++ quoted filename);
        ("Content-Transfer-Encoding", "base64");
        ("Content-Disposition", "attachment; filename=" ++ quoted filename)])
  ++ writeChunks (S (String.length adifB64)) 0 adifB64
  ++ multipart.Close (Boundary env).

Definition BuildEmailWithADIFAttachment (s : Service) (env : ComposeEnv Qso)
    (from subject msg : string) (to : list string) (slice : list Qso)
  : outcome (MsgDef * option error) :=
  let op : Op := "email.Service.BuildEmailWithADIFAttachment" in
  let from := strings.TrimSpace from in
  obind (if (from =? "")%string then configField s types.From
         else Returns from) (fun from =>
  obind (match to with
         | [] => configField s (fun c => splitAndTrim (types.To c))
         | _ => Returns to
         end) (fun tos =>
  match tos with
  | [] =>
      Returns (MsgDef_zero,
               Some (errors.Msg "email TO address cannot be empty"
                       (errors.New op)))
  | _ =>
      let subject := strings.TrimSpace subject in
      obind (if (subject =? "")%string then configField s types.Subject
             else Returns subject) (fun subject =>
      let msg := strings.TrimSpace msg in
      obind (if (msg =? "")%string then configField s types.Body
             else Returns msg) (fun msg =>
      match slice with
      | [] =>
          Returns (MsgDef_zero,
                   Some (errors.Msg "QSO slice cannot be empty"
                           (errors.New op)))
      | _ =>
          match ComposeToAdifString env slice with
          | inr err =>
              Returns (MsgDef_zero,
                       Some (errors.Msg "failed to compose ADIF string"
                               (errors.Err err (errors.New op))))
          | inl adifContent =>
              let hdr := composeHeader env from tos subject in
              let buf := writeHeaders (rangeOrder env hdr) ++ CRLF in
              let buf := buf ++ composeBody env msg adifContent in
              Returns ({| From := from; To := tos; Msg := buf |}, None)
          end
      end))
  end)).

End Composer.

(* ================================================================== *)
(** * Vocabulary of the statements, and concrete cases                 *)
(* ================================================================== *)

(** Configurations and services for the validator: the literal IPv6 host of
    the repository's test, and a host name with a leading space. *)
Definition configOf (host : string) (port : Z) (from user pass : string)
  : types.EmailConfig :=
  {| types.Enabled := true; types.Host := host; types.Port := port;
     types.Username := user; types.Password := pass; types.From := from;
     types.To := ""; types.Subject := ""; types.Body := "";
     types.SmtpDialTimeoutSec := 0; types.SmtpRetryCount := 0;
     types.SmtpRetryDelaySec := 0 |}.

Definition serviceOf (cfg : types.EmailConfig) : Service :=
  {| ConfigService := None; LoggerService := None; Config := Some cfg;
     isInitialized := false; initOnce := false |}.

Definition cfgIPv6 : types.EmailConfig :=
  configOf "2001:db8::1" 587 "from@example.com" "" "".

Definition cfgPaddedHost : types.EmailConfig :=
  configOf " smtp.example.com" 587 "from@example.com" "" "".

(** A peer that answers from a script: the answers are handed out in
    order, nil once the script is exhausted; it advertises STARTTLS or not. *)
Record Script : Type := {
  answers : list (option error);
  advertisesSTARTTLS : bool
}.

Definition scripted : Peer Script :=
  {| respond := fun n _ =>
       match answers n with
       | [] => (None, n)
       | a :: rest =>
           (a, {| answers := rest; advertisesSTARTTLS := advertisesSTARTTLS n |})
       end;
     extension := fun n e => advertisesSTARTTLS n && (e =? "STARTTLS")%string;
     hostname := "localhost" |}.

(** A relay that speaks SMTP but offers no STARTTLS. *)
Definition plainOnlyRelay : Script :=
  {| answers := []; advertisesSTARTTLS := false |}.

(** A relay that accepts the implicit-TLS connection and the client, and
    then rejects the greeting. *)
Definition greetingRejected : Script :=
  {| answers := [None; None; Some (Errorf "554 go away")];
     advertisesSTARTTLS := true |}.

(** A relay that takes the whole message over implicit TLS and then drops
    the connection before answering QUIT. *)
Definition quitDropped : Script :=
  {| answers := [None; None; None; None; None; None; None; None;
                 Some (Errorf "EOF")];
     advertisesSTARTTLS := false |}.

(** The two readings of a trace, in one pass from its start: whether every
    sensitive command so far went over an encrypted channel, and whether
    the channel is encrypted now. *)
Definition auditStep (st : bool * bool) (x : Cmd * option error) : bool * bool :=
  (fst st && (negb (sensitive (fst x)) || snd st), securedAfter (snd st) x).

Definition audit (tr : Trace) : bool * bool := fold_left auditStep tr (true, false).

(** The pause taken before the attempt numbered [attempt] (from 0). *)
Definition pause (attempt delay : Z) : list Event :=
  if (attempt >? 0) && (delay >? 0) then [EvSleep delay] else [].

(** What a run of failed attempts leaves behind, the first of them being
    numbered [attempt]: for each error in turn the pause, the invocation of
    the transport that returned it, and the error notification carrying the
    attempt number counted from 1. *)
Fixpoint failedAttempts (attempt delay : Z) (host addr : string)
    (auth : option PlainAuth) (from : string) (to : list string)
    (msg : string) (errs : list error) : list Event :=
  match errs with
  | [] => []
  | e :: rest =>
      (pause attempt delay
       ++ [EvSendMail addr auth from to msg (Some e);
           EvError e host addr (attempt + 1) "email send failed"]
       ++ failedAttempts (attempt + 1) delay host addr auth from to msg rest)%list
  end.


Definition isSleep (e : Event) : bool :=
  match e with
  | EvSleep _ => true
  | _ => false
  end.


(** The envelope sender, the target address and the credentials as [Send]
    resolves them. *)
Definition senderOf (email : MsgDef) (cfg : types.EmailConfig) : string :=
  let from := strings.TrimSpace (From email) in
  if (from =? "")%string then strings.TrimSpace (types.From cfg) else from.

Definition hostOf (cfg : types.EmailConfig) : string :=
  strings.TrimSpace (types.Host cfg).

Definition addrOf (cfg : types.EmailConfig) : string :=
  net.JoinHostPort (hostOf cfg) (strconv.Itoa (types.Port cfg)).


(** A transport that is down, one that works from its third call on (the
    state counts the calls), and machines to run a service on them. *)
Definition alwaysDown : Transport nat :=
  fun _ _ _ _ _ _ w => (Some (Errorf "temporary"), S w).

Definition upOnThird : Transport nat :=
  fun _ _ _ _ _ _ w =>
    (if (w <? 2)%nat then Some (Errorf "temporary") else None, S w).

Definition machineOf {T : Type} (s : Service) (w : T) : Machine T :=
  {| service := s; smtpDialTimeout := 10 * Second; world := w; events := [] |}.

Definition initialized (cfg : types.EmailConfig) : Service :=
  {| ConfigService := Some (inl cfg); LoggerService := Some tt;
     Config := Some cfg; isInitialized := true; initOnce := true |}.

(** The configuration of the repository's retry test, with a sender. *)
Definition cfgRetry : types.EmailConfig :=
  {| types.Enabled := true; types.Host := "smtp.example.com"; types.Port := 587;
     types.Username := "user"; types.Password := "pass";
     types.From := "cfg@example.com"; types.To := ""; types.Subject := "";
     types.Body := ""; types.SmtpDialTimeoutSec := 0;
     types.SmtpRetryCount := 2; types.SmtpRetryDelaySec := 1 |}.

(** A service as the injector leaves it when the logger was not wired. *)
Definition withoutLogger : Service :=
  {| ConfigService := Some (inl cfgRetry); LoggerService := None;
     Config := None; isInitialized := false; initOnce := false |}.

Definition cfgDisabled : types.EmailConfig := types.withEnabled false cfgRetry.

Definition hello : MsgDef :=
  {| From := "from@example.com"; To := ["to@example.com"]; Msg := "hi" |}.

(** The line the header loop writes for one entry of the map. *)
Definition headerLine (kv : string * list string) : string :=
  fst kv ++ ": " ++ strings.Join (snd kv) ", " ++ CRLF.

Definition flatten (lines : list string) : string :=
  fold_right String.append "" lines.

(** The seven header lines of a document. *)
Definition headerLines {Qso : Type} (env : ComposeEnv Qso) (from : string)
    (tos : list string) (subject : string) : list string :=
  [ "From: " ++ from ++ CRLF;
    "To: " ++ strings.Join tos ", " ++ CRLF;
    "Subject: " ++ subject ++ CRLF;
    "Date: " ++ date env ++ CRLF;
    "Message-Id: " ++ generateMessageID env ++ CRLF;
    "Mime-Version: 1.0" ++ CRLF;
    "Content-Type: multipart/mixed; boundary=" ++ quoted (Boundary env) ++ CRLF ].

(** The subject and the body text as the composer resolves them. *)
Definition subjectOf (subject : string) (cfg : types.EmailConfig) : string :=
  if (strings.TrimSpace subject =? "")%string then types.Subject cfg
  else strings.TrimSpace subject.

Definition bodyOf (msg : string) (cfg : types.EmailConfig) : string :=
  if (strings.TrimSpace msg =? "")%string then types.Body cfg
  else strings.TrimSpace msg.

Definition recipientsOf (to : list string) (cfg : types.EmailConfig) : list string :=
  match to with
  | [] => splitAndTrim (types.To cfg)
  | _ => to
  end.

(** An environment for the composer in which the header map is visited in
    the order given, and the configuration of the repository's composer
    test. *)
Definition envWith (order : textproto.MIMEHeader -> list (string * list string))
  : ComposeEnv unit :=
  {| ComposeToAdifString := fun _ => inl "<eoh>";
     stamp := "20240102030405";
     date := "Tue, 02 Jan 2024 03:04:05 +0000";
     generateMessageID := "<1704164645.1@localhost>";
     Boundary := "5f3a9c0e";
     rangeOrder := order;
     base64_EncodeToString := fun _ => "PGVvaD4=";
     quotedprintable := fun s => s |}.

Definition cfgCompose : types.EmailConfig :=
  {| types.Enabled := true; types.Host := "smtp.example.com"; types.Port := 587;
     types.Username := ""; types.Password := "";
     types.From := "from@example.com";
     types.To := "alice@example.com, bob@example.org";
     types.Subject := "Subject"; types.Body := "Body";
     types.SmtpDialTimeoutSec := 0; types.SmtpRetryCount := 0;
     types.SmtpRetryDelaySec := 0 |}.

(** The document composed from that configuration when the header map is
    visited in the reverse of the insertion order. *)
Definition docReversed : MsgDef :=
  Eval vm_compute in
    match BuildEmailWithADIFAttachment (serviceOf cfgCompose) (envWith (@rev _))
            "" "" "hello world" [] [tt] with
    | Returns (doc, _) => doc
    | Panics => MsgDef_zero
    end.

(** The same configuration without a default sender. *)
Definition cfgNoSender : types.EmailConfig :=
  {| types.Enabled := true; types.Host := "smtp.example.com"; types.Port := 587;
     types.Username := ""; types.Password := ""; types.From := "";
     types.To := "alice@example.com, bob@example.org";
     types.Subject := "Subject"; types.Body := "Body";
     types.SmtpDialTimeoutSec := 0; types.SmtpRetryCount := 0;
     types.SmtpRetryDelaySec := 0 |}.

(** The number of sessions of a trace that reached QUIT. *)
Definition quits (tr : Trace) : nat := length (filter isQuit tr).

(* ================================================================== *)
(** * Hostname sanitizer (internal.go)                                 *)
(* ================================================================== *)

Module utf8.

Definition between (lo hi : N) (c : ascii) : bool :=
  (lo <=? N_of_ascii c)%N && (N_of_ascii c <=? hi)%N.

(** A continuation byte. *)
Definition cont (c : ascii) : bool := between 0x80 0xBF c.

(** The second byte a leading byte accepts (the accept ranges of package
    utf8), or nothing for a byte that cannot lead a sequence. *)
Definition second (b0 : ascii) : option (N * N) :=
  if between 0xC2 0xDF b0 then Some (0x80, 0xBF)%N
  else if between 0xE0 0xE0 b0 then Some (0xA0, 0xBF)%N
  else if between 0xE1 0xEC b0 then Some (0x80, 0xBF)%N
  else if between 0xED 0xED b0 then Some (0x80, 0x9F)%N
  else if between 0xEE 0xEF b0 then Some (0x80, 0xBF)%N
  else if between 0xF0 0xF0 b0 then Some (0x90, 0xBF)%N
  else if between 0xF1 0xF3 b0 then Some (0x80, 0xBF)%N
  else if between 0xF4 0xF4 b0 then Some (0x80, 0x8F)%N
  else None.

(** The length of the sequence a leading byte announces. *)
Definition size (b0 : ascii) : nat :=
  if between 0xC2 0xDF b0 then 2
  else if between 0xE0 0xEF b0 then 3
  else if between 0xF0 0xF4 b0 then 4
  else 1.

(** The width of the rune that a [range] over the string decodes at its
    start: an ASCII byte is one byte wide, a well-formed sequence as wide as
    it is long, and a byte that starts no well-formed sequence is decoded
    as the replacement rune, one byte wide. *)
Definition runeWidth (s : string) : nat :=
  match s with
  | EmptyString => 0
  | String b0 r =>
      match second b0 with
      | None => 1
      | Some (lo, hi) =>
          match r with
          | EmptyString => 1
          | String b1 r1 =>
              if negb (between lo hi b1) then 1
              else match size b0, r1 with
                   | 2%nat, _ => 2
                   | _, EmptyString => 1
                   | n, String b2 r2 =>
                       if negb (cont b2) then 1
                       else match n, r2 with
                            | 3%nat, _ => 3
                            | _, EmptyString => 1
                            | _, String b3 _ => if cont b3 then 4 else 1
                            end
                   end
          end
      end
  end.

End utf8.

(** The runes the sanitizer keeps: ASCII letters, digits and the hyphen. *)
Definition keeps (c : ascii) : bool :=
  textproto.isLower c || textproto.isUpper c || textproto.isDigit c
  || Ascii.eqb c "-".

(** The loop [for _, r := range host]: a kept rune is written as it is, any
    other rune gives one hyphen; [skip] counts the bytes still to pass of
    the rune being replaced. *)
Fixpoint sanitize (skip : nat) (host : string) : string :=
  match host with
  | EmptyString => EmptyString
  | String c r =>
      match skip with
      | S k => sanitize k r
      | O =>
          if keeps c then String c (sanitize 0 r)
          else String "-" (sanitize (utf8.runeWidth host - 1) r)
      end
  end.

(** [strings.Trim(s, cutset)] for a cutset of one ASCII byte: the leading
    and the trailing occurrences of the byte are removed. *)
Fixpoint trimLeftByte (s : string) (c : ascii) : string :=
  match s with
  | EmptyString => EmptyString
  | String a r => if Ascii.eqb a c then trimLeftByte r c else s
  end.

Fixpoint trimRightByte (s : string) (c : ascii) : string :=
  match s with
  | EmptyString => EmptyString
  | String a r =>
      match trimRightByte r c with
      | EmptyString => if Ascii.eqb a c then EmptyString else String a EmptyString
      | r' => String a r'
      end
  end.

Definition Trim1 (s : string) (c : ascii) : string :=
  trimRightByte (trimLeftByte s c) c.

(** [resolveHostname], given what [os.Hostname()] returned. *)
Definition resolveHostname (host : string) (err : option error) : string :=
  match err with
  | Some _ => "localhost"
  | None =>
      if (host =? "")%string then "localhost"
      else
        let cleaned := Trim1 (sanitize 0 host) "-" in
        if (cleaned =? "")%string then "localhost" else cleaned
  end.

(** Every byte of the string passes the test. *)
Fixpoint allBytes (p : ascii -> bool) (s : string) : bool :=
  match s with
  | EmptyString => true
  | String c r => p c && allBytes p r
  end.

Definition firstByte (s : string) : option ascii :=
  match s with
  | EmptyString => None
  | String c _ => Some c
  end.

Fixpoint lastByte (s : string) : option ascii :=
  match s with
  | EmptyString => None
  | String c EmptyString => Some c
  | String _ r => lastByte r
  end.

Definition alnum (c : ascii) : bool :=
  textproto.isLower c || textproto.isUpper c || textproto.isDigit c.

(** The recipients declared and accepted, as they appear in a trace. *)
Definition okRcpts (l : list string) : Trace := map (fun a => (Rcpt a, None)) l.

Definition isClose (x : Cmd * option error) : bool :=
  match x with
  | (ClientClose, _) | (ConnClose, _) => true
  | _ => false
  end.

Definition isPayload (x : Cmd * option error) : bool :=
  match x with
  | (Data, _) | (Write _, _) => true
  | _ => false
  end.

(** A command carries the arguments the session was called with. *)
Definition carries (host : string) (auth : option PlainAuth) (from : string)
    (to : list string) (msg : string) (localName : string) (c : Cmd) : Prop :=
  match c with
  | NewClient h => h = host
  | Hello name => name = localName
  | StartTLS h => h = host
  | Auth a => auth = Some a
  | Mail f => f = from
  | Rcpt a => In a to
  | Write m => m = msg
  | DialTLS _ _ _ | DialTCP _ _ => False
  | ConnClose | Data | DataClose | Quit | ClientClose => True
  end.

(** A peer that accepts everything and advertises STARTTLS. *)
Definition willingRelay : Script :=
  {| answers := []; advertisesSTARTTLS := true |}.

(** The AUTH command of a session, if it has credentials. *)
Definition authCmd (auth : option PlainAuth) : list Cmd :=
  match auth with
  | Some a => [Auth a]
  | None => []
  end.

(** The commands of a delivery over implicit TLS in which nothing fails. *)
Definition delivery (timeout : Z) (addr host localName : string)
    (auth : option PlainAuth) (from : string) (to : list string)
    (msg : string) : list Cmd :=
  ([DialTLS timeout addr host; NewClient host; Hello localName]
   ++ authCmd auth ++ [Mail from] ++ map Rcpt to
   ++ [Data; Write msg; DataClose; Quit; ClientClose])%list.

(** A peer that accepts every command. *)
Definition agreeable : Peer unit :=
  {| respond := fun _ _ => (None, tt);
     extension := fun _ _ => true;
     hostname := "localhost" |}.


(** A service as the injector leaves it: both collaborators wired, the
    provider handing out [cfg], nothing initialized yet. *)
Definition wired (cfg : types.EmailConfig) : Service :=
  {| ConfigService := Some (inl cfg); LoggerService := Some tt;
     Config := None; isInitialized := false; initOnce := false |}.

(** A configuration without a host. *)
Definition cfgNoHost : types.EmailConfig :=
  configOf "" 587 "from@example.com" "" "".

(** A host written as a bracketed literal, which the join brackets again. *)
Definition cfgBracketed : types.EmailConfig :=
  configOf "[::1]" 587 "from@example.com" "" "".

(** A compositor that fails. *)
Definition envBroken : ComposeEnv unit :=
  {| ComposeToAdifString := fun _ => inr (Errorf "bad record");
     stamp := stamp (envWith (fun h => h));
     date := date (envWith (fun h => h));
     generateMessageID := generateMessageID (envWith (fun h => h));
     Boundary := Boundary (envWith (fun h => h));
     rangeOrder := fun h => h;
     base64_EncodeToString := fun _ => "";
     quotedprintable := fun s => s |}.

(** A service the injector never touched. *)
Definition unwired : Service :=
  {| ConfigService := None; LoggerService := None; Config := None;
     isInitialized := false; initOnce := false |}.

(* ================================================================== *)
(** * Facts about strings and addresses                                *)
(* ================================================================== *)

Lemma len_nonneg (s : string) : 0 <= len s.
Proof. unfold len. lia. Qed.

Lemma length_append (a b : string) :
  String.length (a ++ b) = (String.length a + String.length b)%nat.
Proof. induction a; simpl; auto. Qed.

Lemma len_append (a b : string) : len (a ++ b) = len a + len b.
Proof. unfold len. rewrite length_append. lia. Qed.

Lemma len_String (c : ascii) (s : string) : len (String c s) = 1 + len s.
Proof. unfold len. cbn [String.length]. lia. Qed.

Lemma IndexByte_lower (s : string) (c : ascii) : -1 <= strings.IndexByte s c.
Proof.
  induction s as [|a s IH]; simpl; [lia|].
  destruct (Ascii.eqb a c); [lia|].
  destruct (strings.IndexByte s c <? 0) eqn:E; lia.
Qed.

Lemma IndexByte_app_absent (a b : string) (c : ascii) :
  strings.IndexByte a c < 0 ->
  strings.IndexByte (a ++ b) c =
    if strings.IndexByte b c <? 0 then -1 else len a + strings.IndexByte b c.
Proof.
  induction a as [|x a IH]; cbn [strings.IndexByte String.append]; intros H.
  - pose proof (IndexByte_lower b c). change (len "") with 0.
    destruct (strings.IndexByte b c <? 0) eqn:E; [apply Z.ltb_lt in E|]; lia.
  - destruct (Ascii.eqb x c); [lia|].
    destruct (strings.IndexByte a c <? 0) eqn:Ea;
      [apply Z.ltb_lt in Ea | apply Z.ltb_ge in Ea; lia].
    rewrite (IH Ea), len_String.
    pose proof (IndexByte_lower b c). pose proof (len_nonneg a).
    destruct (strings.IndexByte b c <? 0) eqn:Eb; [reflexivity|].
    apply Z.ltb_ge in Eb.
    destruct (len a + strings.IndexByte b c <? 0) eqn:E2;
      [apply Z.ltb_lt in E2; lia | lia].
Qed.

Lemma IndexByte_head (c : ascii) (s : string) : strings.IndexByte (String c s) c = 0.
Proof. simpl. now rewrite Ascii.eqb_refl. Qed.

Lemma LastIndexByte_absent (s : string) (c : ascii) :
  strings.IndexByte s c < 0 -> strings.LastIndexByte s c = -1.
Proof.
  induction s as [|a s IH]; cbn [strings.LastIndexByte strings.IndexByte]; [reflexivity|].
  destruct (Ascii.eqb a c); [lia|].
  destruct (strings.IndexByte s c <? 0) eqn:E;
    [apply Z.ltb_lt in E | pose proof (IndexByte_lower s c); apply Z.ltb_ge in E; lia].
  intros _. now rewrite (IH E).
Qed.

Lemma LastIndexByte_app_found (a b : string) (c : ascii) :
  0 <= strings.LastIndexByte b c ->
  strings.LastIndexByte (a ++ b) c = len a + strings.LastIndexByte b c.
Proof.
  intros H. induction a as [|x a IH]; cbn [strings.LastIndexByte String.append].
  - change (len "") with 0. lia.
  - rewrite IH, len_String. pose proof (len_nonneg a).
    destruct (0 <=? len a + strings.LastIndexByte b c) eqn:E;
      [lia | apply Z.leb_gt in E; lia].
Qed.

Lemma substring_all (s : string) : substring 0 (String.length s) s = s.
Proof. induction s; simpl; congruence. Qed.

Lemma substring_skip (a b : string) (n : nat) :
  substring (String.length a) n (a ++ b) = substring 0 n b.
Proof. induction a; simpl; auto. Qed.

Lemma substring_prefix (a b : string) :
  substring 0 (String.length a) (a ++ b) = a.
Proof.
  induction a as [|x a IH]; simpl; [destruct b; reflexivity|]. now rewrite IH.
Qed.

Lemma sliceFrom_append (a b : string) : sliceFrom (a ++ b) (len a) = b.
Proof.
  unfold sliceFrom, slice, len. rewrite Nat2Z.id, length_append.
  replace (Z.to_nat (Z.of_nat (String.length a + String.length b)
                     - Z.of_nat (String.length a))) with (String.length b) by lia.
  rewrite substring_skip. apply substring_all.
Qed.

Lemma slice_middle (a b c : string) :
  slice (a ++ b ++ c) (len a) (len a + len b) = b.
Proof.
  unfold slice, len. rewrite Nat2Z.id.
  replace (Z.to_nat (Z.of_nat (String.length a) + Z.of_nat (String.length b)
                     - Z.of_nat (String.length a))) with (String.length b) by lia.
  rewrite substring_skip. apply substring_prefix.
Qed.

(** A decimal rendering has digits only. *)
Lemma string_of_uint_digits (d : Decimal.uint) (c : ascii) :
  textproto.isDigit c = false ->
  strings.IndexByte (NilEmpty.string_of_uint d) c = -1.
Proof.
  intros Hc. induction d; cbn [NilEmpty.string_of_uint strings.IndexByte]; try reflexivity;
    rewrite IHd;
    match goal with
    | |- (if Ascii.eqb ?x c then _ else _) = _ =>
        destruct (Ascii.eqb x c) eqn:E; [|reflexivity];
        apply Ascii.eqb_eq in E; subst c; discriminate Hc
    end.
Qed.

Lemma Itoa_digits (p : Z) (c : ascii) :
  0 < p -> textproto.isDigit c = false ->
  strings.IndexByte (strconv.Itoa p) c = -1.
Proof.
  intros Hp Hc. destruct p as [|p|p]; try lia.
  unfold strconv.Itoa. cbn [Z.to_int NilZero.string_of_int]. unfold NilZero.string_of_uint.
  pose proof (string_of_uint_digits (Pos.to_uint p) c Hc) as H.
  destruct (Pos.to_uint p); try exact H.
  cbn [strings.IndexByte]. destruct (Ascii.eqb "0" c) eqn:E0; [|reflexivity].
  apply Ascii.eqb_eq in E0. subst c. discriminate Hc.
Qed.

Lemma byteAt_head (c : ascii) (s : string) : byteAt (String c s) 0 = Some c.
Proof. reflexivity. Qed.

Lemma append_assoc (a b c : string) : (a ++ b) ++ c = a ++ b ++ c.
Proof. induction a; simpl; congruence. Qed.

Lemma IndexByte_at (a b : string) (c : ascii) :
  strings.IndexByte a c < 0 -> strings.IndexByte (a ++ String c b) c = len a.
Proof.
  intros H. rewrite IndexByte_app_absent by assumption.
  rewrite IndexByte_head. cbn. lia.
Qed.

Lemma IndexByte_absent_app (a b : string) (c : ascii) :
  strings.IndexByte a c < 0 -> strings.IndexByte b c < 0 ->
  strings.IndexByte (a ++ b) c = -1.
Proof.
  intros Ha Hb. rewrite IndexByte_app_absent by assumption.
  destruct (strings.IndexByte b c <? 0) eqn:E; [reflexivity|].
  apply Z.ltb_ge in E. lia.
Qed.

Lemma IndexByte_absent_cons (x c : ascii) (b : string) :
  Ascii.eqb x c = false -> strings.IndexByte b c < 0 ->
  strings.IndexByte (String x b) c = -1.
Proof.
  intros Hx Hb. cbn [strings.IndexByte]. rewrite Hx.
  destruct (strings.IndexByte b c <? 0) eqn:E; [reflexivity|].
  apply Z.ltb_ge in E. lia.
Qed.

Lemma LastIndexByte_at (a b : string) (c : ascii) :
  strings.IndexByte b c < 0 -> strings.LastIndexByte (a ++ String c b) c = len a.
Proof.
  intros H.
  assert (E : strings.LastIndexByte (String c b) c = 0).
  { cbn [strings.LastIndexByte]. rewrite (LastIndexByte_absent b c H).
    cbn. now rewrite Ascii.eqb_refl. }
  rewrite LastIndexByte_app_found; rewrite E; lia.
Qed.

Lemma sliceFrom_after (a b : string) (c : ascii) :
  sliceFrom (a ++ String c b) (len a + 1) = b.
Proof.
  replace (a ++ String c b) with ((a ++ String c "") ++ b)
    by (rewrite append_assoc; reflexivity).
  replace (len a + 1) with (len (a ++ String c ""))
    by (rewrite len_append, len_String; change (len "") with 0; lia).
  apply sliceFrom_append.
Qed.

Lemma slice_before (a b : string) : slice (a ++ b) 0 (len a) = a.
Proof.
  unfold slice, len. rewrite Z.sub_0_r, Nat2Z.id. apply substring_prefix.
Qed.

(** Settle the integer tests of the goal that arithmetic decides. *)
Ltac ztest :=
  repeat match goal with
  | |- context [?a <? ?b] =>
      (replace (a <? b) with true by (symmetry; apply Z.ltb_lt; lia))
      || (replace (a <? b) with false by (symmetry; apply Z.ltb_ge; lia))
  | |- context [?a <=? ?b] =>
      (replace (a <=? b) with true by (symmetry; apply Z.leb_le; lia))
      || (replace (a <=? b) with false by (symmetry; apply Z.leb_gt; lia))
  | |- context [?a =? ?b] =>
      (replace (a =? b) with true by (symmetry; apply Z.eqb_eq; lia))
      || (replace (a =? b) with false by (symmetry; apply Z.eqb_neq; lia))
  end.

(** Joining a bracket-free host with a port and splitting the result gives
    the host and the port back. *)
Lemma SplitHostPort_JoinHostPort (host : string) (port : Z) :
  strings.IndexByte host net.lbrack < 0 ->
  strings.IndexByte host net.rbrack < 0 ->
  0 < port ->
  net.SplitHostPort (net.JoinHostPort host (strconv.Itoa port))
  = inl (host, strconv.Itoa port).
Proof.
  intros Hl Hr Hp.
  pose proof (Itoa_digits port net.colon Hp eq_refl) as Pc.
  pose proof (Itoa_digits port net.lbrack Hp eq_refl) as Pl.
  pose proof (Itoa_digits port net.rbrack Hp eq_refl) as Pr.
  pose proof (len_nonneg host) as Hn.
  set (P := strconv.Itoa port) in *.
  pose proof (len_nonneg P) as HnP.
  unfold net.JoinHostPort.
  destruct (0 <=? strings.IndexByte host net.colon) eqn:Hc.
  - (* bracketed literal: [host]:port *)
    set (hp := "[" ++ host ++ "]:" ++ P).
    assert (F1 : hp = ("[" ++ host ++ "]") ++ String ":" P)
      by (unfold hp; cbn [String.append]; now rewrite append_assoc).
    assert (F2 : hp = ("[" ++ host) ++ String "]" (String ":" P)) by reflexivity.
    assert (L1 : len ("[" ++ host ++ "]") = len host + 2)
      by (cbn [String.append]; rewrite len_String, len_append;
          change (len "]") with 1; lia).
    assert (L2 : len ("[" ++ host) = len host + 1)
      by (cbn [String.append]; rewrite len_String; lia).
    assert (L3 : len hp = len host + 3 + len P)
      by (rewrite F1, len_append, L1, len_String; lia).
    assert (Hi : strings.LastIndexByte hp net.colon = len host + 2)
      by (rewrite F1, LastIndexByte_at, L1; [reflexivity | rewrite Pc; lia]).
    assert (He : strings.IndexByte hp net.rbrack = len host + 1).
    { rewrite F2, IndexByte_at, L2; [reflexivity|].
      cbn [String.append].
      rewrite IndexByte_absent_cons; [lia | reflexivity | assumption]. }
    assert (S1 : sliceFrom hp 1 = host ++ String "]" (String ":" P))
      by (apply (sliceFrom_after "" _ "[")).
    assert (S2 : sliceFrom hp (len host + 1 + 1) = String ":" P).
    { rewrite F2, <- L2. apply sliceFrom_after. }
    assert (S3 : sliceFrom hp (len host + 2 + 1) = P).
    { rewrite F1, <- L1. apply sliceFrom_after. }
    assert (S4 : slice hp 1 (len host + 1) = host).
    { replace (len host + 1) with (len "[" + len host)
        by (change (len "[") with 1; lia).
      apply (slice_middle "[" host (String "]" (String ":" P))). }
    unfold net.SplitHostPort. rewrite Hi.
    replace (byteAt hp 0) with (Some net.lbrack) by reflexivity.
    rewrite Ascii.eqb_refl, He, L3, S4. ztest. cbv beta iota zeta.
    rewrite S1, S2, S3.
    assert (A1 : strings.IndexByte (String "]" (String ":" P)) net.lbrack = -1)
      by (rewrite IndexByte_absent_cons; [reflexivity | reflexivity | ];
          rewrite IndexByte_absent_cons; [lia | reflexivity | rewrite Pl; lia]).
    rewrite IndexByte_absent_app; [| assumption | rewrite A1; lia].
    rewrite IndexByte_absent_cons; [| reflexivity | rewrite Pr; lia].
    reflexivity.
  - (* host:port *)
    apply Z.leb_gt in Hc.
    set (hp := host ++ ":" ++ P).
    assert (Hi : strings.LastIndexByte hp net.colon = len host)
      by (apply LastIndexByte_at; rewrite Pc; lia).
    assert (S0 : slice hp 0 (len host) = host) by apply slice_before.
    assert (S3 : sliceFrom hp (len host + 1) = P) by apply sliceFrom_after.
    assert (B0 : match byteAt hp 0 with
                 | Some c => Ascii.eqb c net.lbrack
                 | None => false
                 end = false).
    { unfold hp. destruct host as [|x host']; [reflexivity|].
      cbn [String.append]. rewrite byteAt_head.
      cbn [strings.IndexByte] in Hl.
      destruct (Ascii.eqb x net.lbrack); [lia | reflexivity]. }
    unfold net.SplitHostPort. rewrite Hi, B0, S0, S3. ztest. cbv beta iota zeta.
    replace (sliceFrom hp 0) with hp
      by (symmetry; apply (sliceFrom_append "" hp)).
    unfold hp. change (":" ++ P) with (String ":" P).
    assert (A1 : strings.IndexByte (String ":" P) net.lbrack = -1)
      by (rewrite IndexByte_absent_cons; [lia | reflexivity | rewrite Pl; lia]).
    assert (A2 : strings.IndexByte (String ":" P) net.rbrack = -1)
      by (rewrite IndexByte_absent_cons; [lia | reflexivity | rewrite Pr; lia]).
    rewrite !IndexByte_absent_app; try assumption; rewrite ?A1, ?A2; try lia.
    reflexivity.
Qed.
(* ================================================================== *)
(** * The validator                                                    *)
(* ================================================================== *)

Lemma eqb_empty_true (s : string) : s = "" -> (s =? "")%string = true.
Proof. intros ->. reflexivity. Qed.

Lemma eqb_empty_false (s : string) : s <> "" -> (s =? "")%string = false.
Proof. intros H. now apply String.eqb_neq. Qed.

Lemma port_test_ok (p : Z) : 1 <= p <= 65535 -> (p <=? 0) || (p >? 65535) = false.
Proof.
  intros H. apply orb_false_iff. split; [apply Z.leb_gt; lia|].
  rewrite Z.gtb_ltb. apply Z.ltb_ge. lia.
Qed.

Lemma port_test_ko (p : Z) : ~ 1 <= p <= 65535 -> (p <=? 0) || (p >? 65535) = true.
Proof.
  intros H. apply orb_true_iff.
  destruct (Z_le_gt_dec p 0); [left; now apply Z.leb_le | right].
  rewrite Z.gtb_ltb. apply Z.ltb_lt. lia.
Qed.

(** C9, as amended. The validator reports the first rule that the trimmed
    values violate, in the order host empty, host with a space, port out of
    range, host and port not joinable, sender empty, password without user
    name, user name without password; it accepts every configuration whose
    trimmed host is non-empty and free of spaces and of square brackets (as a
    literal IPv6 address with its colons is), whose port lies in 1..65535,
    whose trimmed sender is non-empty and whose trimmed credentials are both
    present or both absent. *)
Theorem validateConfig_first_violation
    (s : Service) (cfg : types.EmailConfig) (op : Op) :
  Config s = Some cfg ->
  let host := strings.TrimSpace (types.Host cfg) in
  let from := strings.TrimSpace (types.From cfg) in
  let username := strings.TrimSpace (types.Username cfg) in
  let password := strings.TrimSpace (types.Password cfg) in
  let addr := net.JoinHostPort host (strconv.Itoa (types.Port cfg)) in
  let fails msg :=
    validateConfig s op = Returns (Some (errors.Msg msg (errors.New op))) in
  let hostOK := host <> "" /\ strings.Contains host " " = false in
  let portOK := 1 <= types.Port cfg <= 65535 in
  let joinable := exists hp, net.SplitHostPort addr = inl hp in
  (host = "" -> fails "email host cannot be empty")
  /\ (host <> "" -> strings.Contains host " " = true ->
      fails "email host cannot contain spaces")
  /\ (hostOK -> ~ portOK -> fails "email port must be between 1 and 65535")
  /\ (hostOK -> portOK -> forall err, net.SplitHostPort addr = inr err ->
      validateConfig s op
      = Returns (Some (errors.Msg "invalid host or port for email config"
                         (errors.Err err (errors.New op)))))
  /\ (hostOK -> portOK -> joinable -> from = "" ->
      fails "email from address cannot be empty")
  /\ (hostOK -> portOK -> joinable -> from <> "" ->
      username = "" -> password <> "" ->
      fails "email username must be set when password is provided")
  /\ (hostOK -> portOK -> joinable -> from <> "" ->
      password = "" -> username <> "" ->
      fails "email password must be set when username is provided")
  /\ (hostOK -> portOK ->
      strings.IndexByte host net.lbrack < 0 ->
      strings.IndexByte host net.rbrack < 0 ->
      from <> "" -> (username = "" <-> password = "") ->
      validateConfig s op = Returns None).
Proof.
  intros HC; cbv zeta; unfold validateConfig; rewrite HC; cbv zeta.
  repeat split.
  - intros H. now rewrite (eqb_empty_true _ H).
  - intros H1 H2. now rewrite (eqb_empty_false _ H1), H2.
  - intros [H1 H2] H3. now rewrite (eqb_empty_false _ H1), H2, (port_test_ko _ H3).
  - intros [H1 H2] H3 err H4.
    now rewrite (eqb_empty_false _ H1), H2, (port_test_ok _ H3), H4.
  - intros [H1 H2] H3 [hp H4] H5.
    now rewrite (eqb_empty_false _ H1), H2, (port_test_ok _ H3), H4,
      (eqb_empty_true _ H5).
  - intros [H1 H2] H3 [hp H4] H5 H6 H7.
    now rewrite (eqb_empty_false _ H1), H2, (port_test_ok _ H3), H4,
      (eqb_empty_false _ H5), (eqb_empty_true _ H6), (eqb_empty_false _ H7).
  - intros [H1 H2] H3 [hp H4] H5 H6 H7.
    rewrite (eqb_empty_false _ H1), H2, (port_test_ok _ H3), H4,
      (eqb_empty_false _ H5), (eqb_empty_true _ H6), (eqb_empty_false _ H7).
    reflexivity.
  - intros [H1 H2] H3 Hl Hr H5 H6.
    rewrite (eqb_empty_false _ H1), H2, (port_test_ok _ H3),
      (SplitHostPort_JoinHostPort _ _ Hl Hr) by lia.
    rewrite (eqb_empty_false _ H5).
    destruct (String.eqb_spec (strings.TrimSpace (types.Username cfg)) "") as [U|U];
      destruct (String.eqb_spec (strings.TrimSpace (types.Password cfg)) "") as [P|P];
      try reflexivity; exfalso; tauto.
Qed.

Lemma validateConfig_first_violation_witness :
  validateConfig (serviceOf cfgIPv6) "op" = Returns None.
Proof.
  apply (proj2 (proj2 (proj2 (proj2 (proj2 (proj2 (proj2
    (validateConfig_first_violation (serviceOf cfgIPv6) cfgIPv6 "op" eq_refl)))))))).
  - split; [discriminate | reflexivity].
  - vm_compute. split; discriminate.
  - reflexivity.
  - reflexivity.
  - discriminate.
  - split; reflexivity.
Defined.

(** The two rejections checked by the repository's test. *)
Example validateConfig_test_messages :
  validateConfig (serviceOf (configOf "" 587 "from@example.com" "" "")) "op"
  = Returns (Some (Detailed "op" None "email host cannot be empty"))
  /\ validateConfig (serviceOf (configOf "mail" 587 "" "" "")) "op"
     = Returns (Some (Detailed "op" None "email from address cannot be empty")).
Proof. split; reflexivity. Qed.

(** C9, as stated, fails: a host with a space in it is accepted when the
    space is leading or trailing, because the host is trimmed first. *)
Lemma validateConfig_padded_host_accepted :
  strings.Contains (types.Host cfgPaddedHost) " " = true
  /\ validateConfig (serviceOf cfgPaddedHost) "op" = Returns None.
Proof. split; reflexivity. Qed.

(* ================================================================== *)
(** * The transport negotiator                                         *)
(* ================================================================== *)

Lemma auditStep_eq (a b : bool) (x : Cmd * option error) :
  auditStep (a, b) x = (a && (negb (sensitive (fst x)) || b), securedAfter b x).
Proof. reflexivity. Qed.

Lemma audit_from (tr : Trace) (b : bool) :
  fold_left auditStep tr (true, b)
  = (noPlaintext b tr, fold_left securedAfter tr b).
Proof.
  revert b. induction tr as [|x tr IH]; intros b; [reflexivity|].
  cbn [fold_left noPlaintext]. unfold auditStep at 2. cbn [fst snd andb].
  destruct (sensitive (fst x)) eqn:Hs, b; cbn [negb orb andb]; try apply IH.
  clear IH. generalize (securedAfter false x).
  induction tr as [|y tr IH]; intros c; [reflexivity|]. apply IH.
Qed.

Lemma audit_spec (tr : Trace) : audit tr = (noPlaintext false tr, secureAfter tr).
Proof. apply audit_from. Qed.

Lemma noPlaintext_snoc (tr : Trace) (x : Cmd * option error) :
  noPlaintext false (tr ++ [x])%list
  = noPlaintext false tr && (negb (sensitive (fst x)) || secureAfter tr).
Proof.
  pose proof (audit_spec (tr ++ [x])%list) as H. unfold audit in H.
  rewrite fold_left_app in H. fold (audit tr) in H. rewrite audit_spec in H.
  cbn [fold_left] in H. rewrite auditStep_eq in H. now inversion H.
Qed.

Lemma audit_app (tr ext : Trace) :
  audit (tr ++ ext)%list = fold_left auditStep ext (audit tr).
Proof. apply fold_left_app. Qed.

Lemma audit_rcpts (ext : Trace) (ok : bool) :
  forallb isRcpt ext = true ->
  fold_left auditStep ext (ok, true) = (ok, true).
Proof.
  induction ext as [|[c r] ext IH]; intros H; [reflexivity|].
  cbn [forallb] in H. apply andb_prop in H. destruct H as [Hc H].
  destruct c; try discriminate Hc. cbn [fold_left]. unfold auditStep at 2.
  cbn [fst snd securedAfter orb]. rewrite orb_true_r, andb_true_r. now apply IH.
Qed.

Lemma existsb_rcpts (p : Cmd * option error -> bool) (ext : Trace) :
  (forall x, isRcpt x = true -> p x = false) ->
  forallb isRcpt ext = true -> existsb p ext = false.
Proof.
  intros Hp H. induction ext as [|x ext IH]; [reflexivity|].
  cbn [forallb] in H. apply andb_prop in H. destruct H as [Hx H].
  cbn [existsb]. now rewrite (Hp x Hx), IH.
Qed.

Lemma dials_rcpts (ext : Trace) :
  forallb isRcpt ext = true -> filter isDial (map fst ext) = [].
Proof.
  induction ext as [|[c r] ext IH]; intros H; [reflexivity|].
  cbn [forallb] in H. apply andb_prop in H. destruct H as [Hc H].
  destruct c; try discriminate Hc. cbn [map fst filter isDial]. now apply IH.
Qed.

Lemma rcpt_not_written (x : Cmd * option error) : isRcpt x = true -> isWritten x = false.
Proof. destruct x as [[] []]; cbn; congruence. Qed.

Lemma rcpt_not_closed (x : Cmd * option error) : isRcpt x = true -> isClosed x = false.
Proof. destruct x as [[] []]; cbn; congruence. Qed.

Lemma rcpt_not_quit (x : Cmd * option error) : isRcpt x = true -> isQuit x = false.
Proof. destruct x as [[] []]; cbn; congruence. Qed.

(** One step of a session proof: name the peer's answer to the next
    command and reduce. *)
Ltac answer :=
  match goal with
  | |- context [respond ?n ?c] =>
      let r := fresh "r" in
      let n' := fresh "n" in
      let E := fresh "E" in
      destruct (respond n c) as [[r|] n'] eqn:E; cbv beta iota; cbn [fst snd]
  | |- context [extension ?n ?e] =>
      let E := fresh "E" in
      destruct (extension n e) eqn:E; cbn [negb]; cbv beta iota; cbn [fst snd]
  end.

Section SessionFacts.
Context {Net : Type} {peer : Peer Net}.

Lemma Internal_rcptEach_trace (to : list string) (n : Net) (tr : Trace)
    (r : option error) (n' : Net) (tr' : Trace) :
  Internal.rcptEach to (n, tr) = (r, (n', tr')) ->
  exists ext, tr' = (tr ++ ext)%list /\ forallb isRcpt ext = true.
Proof.
  revert n tr. induction to as [|a to IH]; intros n tr.
  - cbn. intros [= _ _ <-]. exists []. now rewrite app_nil_r.
  - cbn [Internal.rcptEach]. unfold orReturn, sbind, sret, issue. cbn [fst snd].
    answer.
    + intros [= _ _ <-]. exists [(Rcpt a, Some r0)]. split; reflexivity.
    + intros E1. apply IH in E1. destruct E1 as (ext & -> & E2).
      exists ((Rcpt a, None) :: ext). split; [now rewrite <- app_assoc | exact E2].
Qed.

Lemma Part000_rcptEach_trace (op : Op) (to : list string) (n : Net)
    (tr : Trace) (r : option error) (n' : Net) (tr' : Trace) :
  Part000.rcptEach op to (n, tr) = (r, (n', tr')) ->
  exists ext, tr' = (tr ++ ext)%list /\ forallb isRcpt ext = true.
Proof.
  revert n tr. induction to as [|a to IH]; intros n tr.
  - cbn. intros [= _ _ <-]. exists []. now rewrite app_nil_r.
  - cbn [Part000.rcptEach]. unfold orReturn, sbind, sret, issue. cbn [fst snd].
    answer.
    + intros [= _ _ <-]. exists [(Rcpt a, Some r0)]. split; reflexivity.
    + intros E1. apply IH in E1. destruct E1 as (ext & -> & E2).
      exists ((Rcpt a, None) :: ext). split; [now rewrite <- app_assoc | exact E2].
Qed.

(** Run the recipients loop met in the goal. *)
Ltac recipients :=
  match goal with
  | |- context [Internal.rcptEach ?to (?n, ?tr)] =>
      let r := fresh "r" in
      let n' := fresh "n" in
      let tr' := fresh "tr" in
      let ext := fresh "ext" in
      let E := fresh "E" in
      let Hext := fresh "Hext" in
      destruct (Internal.rcptEach to (n, tr)) as [r [n' tr']] eqn:E;
      apply Internal_rcptEach_trace in E; destruct E as (ext & -> & Hext);
      destruct r; cbv beta iota; cbn [fst snd]
  | |- context [Part000.rcptEach ?op ?to (?n, ?tr)] =>
      let r := fresh "r" in
      let n' := fresh "n" in
      let tr' := fresh "tr" in
      let ext := fresh "ext" in
      let E := fresh "E" in
      let Hext := fresh "Hext" in
      destruct (Part000.rcptEach op to (n, tr)) as [r [n' tr']] eqn:E;
      apply Part000_rcptEach_trace in E; destruct E as (ext & -> & Hext);
      destruct r; cbv beta iota; cbn [fst snd]
  end.

Ltac session := repeat first [answer | recipients].

(** Read the audit of the trace in the goal off the audit of its start. *)
Ltac audited H :=
  rewrite ?audit_app, ?H;
  repeat first
    [ rewrite auditStep_eq
    | rewrite audit_rcpts by assumption
    | progress cbn [fold_left fst snd sensitive securedAfter negb andb orb] ];
  try reflexivity.

(** Read the scans of the trace in the goal (or in [H]). *)
Ltac scanned :=
  unfold accepted, dials;
  repeat first
    [ rewrite existsb_app
    | rewrite map_app
    | rewrite filter_app
    | match goal with
      | Hx : forallb isRcpt ?e = true |- _ =>
          first [ rewrite (existsb_rcpts isWritten e rcpt_not_written Hx)
                | rewrite (existsb_rcpts isClosed e rcpt_not_closed Hx)
                | rewrite (existsb_rcpts isQuit e rcpt_not_quit Hx)
                | rewrite (dials_rcpts e Hx) ]
      end
    | progress cbn [existsb isWritten isClosed isQuit isDial map filter fst
                    orb andb app] ];
  rewrite ?orb_false_r, ?app_nil_r.

Ltac unfold_session :=
  unfold Internal.sendWithClient, Part000.sendWithClient,
    defer, orReturn, sbind, sret, issue, Extension;
  cbn [fst snd].

Lemma Internal_sendWithClient_audit host auth from to msg alreadyTLS n tr :
  audit tr = (true, alreadyTLS) ->
  fst (audit (snd (snd
    (Internal.sendWithClient host auth from to msg alreadyTLS (n, tr)))))
  = true.
Proof.
  intros H. unfold_session.
  destruct alreadyTLS, auth; cbn [negb]; session; audited H.
Qed.

Lemma Part000_sendWithClient_audit host auth from to msg alreadyTLS n tr :
  audit tr = (true, alreadyTLS) ->
  fst (audit (snd (snd
    (Part000.sendWithClient host auth from to msg alreadyTLS (n, tr)))))
  = true.
Proof.
  intros H. unfold_session.
  destruct alreadyTLS, auth; cbn [negb]; session; audited H.
Qed.

(** A session that reaches QUIT has had its payload accepted and returns
    nil whatever the answer to QUIT; a session whose payload was accepted
    returns nil. *)
Lemma Internal_sendWithClient_quit host auth from to msg alreadyTLS n tr :
  existsb isQuit tr = false ->
  let run := Internal.sendWithClient host auth from to msg alreadyTLS (n, tr) in
  exists ext, snd (snd run) = (tr ++ ext)%list
    /\ (accepted ext = true -> fst run = None)
    /\ (existsb isQuit (snd (snd run)) = true -> accepted ext = true)
    /\ dials ext = [].
Proof.
  intros H. cbv zeta. unfold_session.
  destruct alreadyTLS, auth; cbn [negb]; session;
    rewrite <- ?app_assoc; cbn [app];
    (eexists; split; [reflexivity|]); scanned; rewrite ?H;
    repeat split; try reflexivity; try discriminate; auto.
Qed.

Lemma Part000_sendWithClient_quit host auth from to msg alreadyTLS n tr :
  existsb isQuit tr = false ->
  let run := Part000.sendWithClient host auth from to msg alreadyTLS (n, tr) in
  exists ext, snd (snd run) = (tr ++ ext)%list
    /\ (accepted ext = true -> fst run = None)
    /\ (existsb isQuit (snd (snd run)) = true -> accepted ext = true)
    /\ dials ext = [].
Proof.
  intros H. cbv zeta. unfold_session.
  destruct alreadyTLS, auth; cbn [negb]; session;
    rewrite <- ?app_assoc; cbn [app];
    (eexists; split; [reflexivity|]); scanned; rewrite ?H;
    repeat split; try reflexivity; try discriminate; auto.
Qed.

(** C1. On a connection that is not yet encrypted, a server that does not
    advertise STARTTLS after the greeting makes the session fail at once
    with the TLS-required error: the client is closed and nothing else is
    sent, so no AUTH, MAIL, RCPT or DATA goes over the plaintext
    connection. More generally, in a whole delivery attempt no such
    command is ever issued on a channel that is not encrypted. Both
    revisions of the negotiator are covered. *)
Theorem starttls_required_no_plaintext_fallback
    (timeout : Z) (addr host : string) (auth : option PlainAuth)
    (from : string) (to : list string) (msg : string) (n : Net) :
  (forall (tr : Trace) (n1 n2 : Net),
      respond n (NewClient host) = (None, n1) ->
      respond n1 (Hello hostname) = (None, n2) ->
      extension n2 "STARTTLS" = false ->
      let closing := respond n2 ClientClose in
      let trace :=
        (tr ++ [(NewClient host, None); (Hello hostname, None);
                (ClientClose, fst closing)])%list in
      Internal.sendWithClient host auth from to msg false (n, tr)
      = (Some (Errorf "smtp server does not support STARTTLS; TLS required"),
         (snd closing, trace))
      /\ Part000.sendWithClient host auth from to msg false (n, tr)
         = (Some (errors.Msg
                    "smtp server does not support STARTTLS; TLS required"
                    (errors.New "email.sendWithClient")),
            (snd closing, trace)))
  /\ noPlaintext false
       (snd (snd (Internal.sendMailWithTLS timeout addr auth from to msg (n, []))))
     = true
  /\ noPlaintext false
       (snd (snd (Part000.sendMailWithTLS timeout addr auth from to msg (n, []))))
     = true.
Proof.
  split; [|split].
  - intros tr n1 n2 E1 E2 E3. cbv zeta. unfold_session.
    rewrite E1. cbv beta iota. cbn [fst snd]. rewrite E2. cbv beta iota.
    cbn [fst snd negb]. rewrite E3. cbn [negb]. cbv beta iota. cbn [fst snd].
    destruct (respond n2 ClientClose) as [rc n3]. cbn [fst snd].
    rewrite <- !app_assoc. split; reflexivity.
  - unfold Internal.sendMailWithTLS, Internal.tryImplicitTLS,
      Internal.tryStartTLS, sbind, sret, issue.
    destruct (net.SplitHostPort addr) as [[h p]|err]; [|reflexivity].
    cbn [fst snd app]. answer.
    + answer; [reflexivity|].
      pose proof (Internal_sendWithClient_audit h auth from to msg false n1
        [(DialTLS timeout addr h, Some r); (DialTCP timeout addr, None)]
        eq_refl) as A.
      now rewrite audit_spec in A.
    + pose proof (Internal_sendWithClient_audit h auth from to msg true n0
        [(DialTLS timeout addr h, None)] eq_refl) as A.
      destruct (Internal.sendWithClient h auth from to msg true _)
        as [[e|] [n1 tr1]]; cbn [fst snd] in A |- *;
        [|now rewrite audit_spec in A].
      answer.
      * rewrite noPlaintext_snoc. rewrite audit_spec in A. cbn [fst] in A.
        now rewrite A.
      * assert (A' : audit (tr1 ++ [(DialTCP timeout addr, None)])%list
                     = (true, false)).
        { rewrite audit_app. destruct (audit tr1) as [a b]. cbn [fst] in A.
          subst a. reflexivity. }
        pose proof (Internal_sendWithClient_audit h auth from to msg false n2
          _ A') as B.
        now rewrite audit_spec in B.
  - unfold Part000.sendMailWithTLS, Part000.tryImplicitTLS,
      Part000.tryStartTLS, sbind, sret, issue.
    destruct (net.SplitHostPort addr) as [[h p]|err]; [|reflexivity].
    cbn [fst snd app]. answer.
    + answer; [reflexivity|].
      pose proof (Part000_sendWithClient_audit h auth from to msg false n1
        [(DialTLS timeout addr h, Some r); (DialTCP timeout addr, None)]
        eq_refl) as A.
      now rewrite audit_spec in A.
    + pose proof (Part000_sendWithClient_audit h auth from to msg true n0
        [(DialTLS timeout addr h, None)] eq_refl) as A.
      destruct (Part000.sendWithClient h auth from to msg true _)
        as [[e|] [n1 tr1]]; cbn [fst snd] in A |- *;
        [|now rewrite audit_spec in A].
      answer.
      * rewrite noPlaintext_snoc. rewrite audit_spec in A. cbn [fst] in A.
        now rewrite A.
      * assert (A' : audit (tr1 ++ [(DialTCP timeout addr, None)])%list
                     = (true, false)).
        { rewrite audit_app. destruct (audit tr1) as [a b]. cbn [fst] in A.
          subst a. reflexivity. }
        pose proof (Part000_sendWithClient_audit h auth from to msg false n2
          _ A') as B.
        now rewrite audit_spec in B.
Qed.

Lemma dials_app (tr ext : Trace) : dials (tr ++ ext)%list = (dials tr ++ dials ext)%list.
Proof. unfold dials. now rewrite map_app, filter_app. Qed.

Lemma In_quit (q : option error) (tr : Trace) :
  In (Quit, q) tr -> existsb isQuit tr = true.
Proof. intros H. apply existsb_exists. exists (Quit, q). now split. Qed.

(** C2, as amended. When the address splits into host and port, a delivery
    attempt first tries implicit TLS. If that try returns nil the attempt
    returns nil and the only connection opened is the TLS one. If that try
    returns an error, whether the TLS connection could not be established
    or the protocol session over it failed, the attempt opens a plain TCP
    connection and its result is the result of the STARTTLS try on it:
    exactly two connections are opened and nothing follows the second. *)
Theorem fallback_on_any_implicit_failure
    (timeout : Z) (addr host port : string) (auth : option PlainAuth)
    (from : string) (to : list string) (msg : string) (n : Net) :
  net.SplitHostPort addr = inl (host, port) ->
  (let implicit :=
     Internal.tryImplicitTLS timeout host addr auth from to msg (n, []) in
   let run := Internal.sendMailWithTLS timeout addr auth from to msg (n, []) in
   (fst implicit = None ->
      run = (None, snd implicit)
      /\ dials (snd (snd run)) = [DialTLS timeout addr host])
   /\ (forall e, fst implicit = Some e ->
      run = Internal.tryStartTLS timeout host addr auth from to msg
              (snd implicit)
      /\ dials (snd (snd run))
         = [DialTLS timeout addr host; DialTCP timeout addr]))
  /\
  (let implicit :=
     Part000.tryImplicitTLS timeout host addr auth from to msg (n, []) in
   let run := Part000.sendMailWithTLS timeout addr auth from to msg (n, []) in
   (fst implicit = None ->
      run = (None, snd implicit)
      /\ dials (snd (snd run)) = [DialTLS timeout addr host])
   /\ (forall e, fst implicit = Some e ->
      run = Part000.tryStartTLS timeout host addr auth from to msg
              (snd implicit)
      /\ dials (snd (snd run))
         = [DialTLS timeout addr host; DialTCP timeout addr])).
Proof.
  intros HS. split; cbv zeta.
  - unfold Internal.sendMailWithTLS. rewrite HS. cbv beta iota.
    unfold sbind.
    assert (D : dials (snd (snd (Internal.tryImplicitTLS timeout host addr
                  auth from to msg (n, [])))) = [DialTLS timeout addr host]
                /\ (fst (Internal.tryImplicitTLS timeout host addr
                  auth from to msg (n, [])) <> None ->
                    existsb isQuit (snd (snd (Internal.tryImplicitTLS timeout
                      host addr auth from to msg (n, [])))) = false)).
    { unfold Internal.tryImplicitTLS, sbind, sret, issue. cbn [fst snd app].
      answer; [split; reflexivity|].
      destruct (Internal_sendWithClient_quit host auth from to msg true n0
                  [(DialTLS timeout addr host, None)] eq_refl)
        as (ext & E1 & E2 & E3 & E4).
      rewrite E1, dials_app, E4. split; [reflexivity|].
      intros Hne. rewrite <- E1.
      destruct (existsb isQuit _) eqn:Q; [|reflexivity].
      exfalso. apply Hne. apply E2. apply E3. reflexivity. }
    destruct D as [D Q].
    destruct (Internal.tryImplicitTLS timeout host addr auth from to msg (n, []))
      as [[e|] [n1 tr1]]; cbn [fst snd] in *.
    + split; [discriminate|]. intros e' _. split; [reflexivity|].
      specialize (Q ltac:(discriminate)).
      unfold Internal.tryStartTLS, sbind, sret, issue. cbn [fst snd].
      answer.
      * rewrite dials_app, D. reflexivity.
      * destruct (Internal_sendWithClient_quit host auth from to msg false n0
                    (tr1 ++ [(DialTCP timeout addr, None)])%list)
          as (ext & E1 & E2 & E3 & E4).
        { rewrite existsb_app, Q. reflexivity. }
        rewrite E1, !dials_app, E4, D. reflexivity.
    + split; [|discriminate]. intros _. split; [reflexivity|exact D].
  - unfold Part000.sendMailWithTLS. rewrite HS. cbv beta iota.
    unfold sbind.
    assert (D : dials (snd (snd (Part000.tryImplicitTLS timeout host addr
                  auth from to msg (n, [])))) = [DialTLS timeout addr host]
                /\ (fst (Part000.tryImplicitTLS timeout host addr
                  auth from to msg (n, [])) <> None ->
                    existsb isQuit (snd (snd (Part000.tryImplicitTLS timeout
                      host addr auth from to msg (n, [])))) = false)).
    { unfold Part000.tryImplicitTLS, sbind, sret, issue. cbn [fst snd app].
      answer; [split; reflexivity|].
      destruct (Part000_sendWithClient_quit host auth from to msg true n0
                  [(DialTLS timeout addr host, None)] eq_refl)
        as (ext & E1 & E2 & E3 & E4).
      rewrite E1, dials_app, E4. split; [reflexivity|].
      intros Hne. rewrite <- E1.
      destruct (existsb isQuit _) eqn:Q; [|reflexivity].
      exfalso. apply Hne. apply E2. apply E3. reflexivity. }
    destruct D as [D Q].
    destruct (Part000.tryImplicitTLS timeout host addr auth from to msg (n, []))
      as [[e|] [n1 tr1]]; cbn [fst snd] in *.
    + split; [discriminate|]. intros e' _. split; [reflexivity|].
      specialize (Q ltac:(discriminate)).
      unfold Part000.tryStartTLS, sbind, sret, issue. cbn [fst snd].
      answer.
      * rewrite dials_app, D. reflexivity.
      * destruct (Part000_sendWithClient_quit host auth from to msg false n0
                    (tr1 ++ [(DialTCP timeout addr, None)])%list)
          as (ext & E1 & E2 & E3 & E4).
        { rewrite existsb_app, Q. reflexivity. }
        rewrite E1, !dials_app, E4, D. reflexivity.
    + split; [|discriminate]. intros _. split; [reflexivity|exact D].
Qed.

(** The sessions and attempts of both revisions: an accepted payload gives
    nil, and a failed QUIT is only found after an acceptance. *)
Lemma quit_failure_in_session
    (timeout : Z) (addr host : string) (auth : option PlainAuth)
    (from : string) (to : list string) (msg : string) (alreadyTLS : bool)
    (n : Net) :
  (let run := Internal.sendWithClient host auth from to msg alreadyTLS (n, []) in
   (accepted (snd (snd run)) = true -> fst run = None)
   /\ (forall e, In (Quit, Some e) (snd (snd run)) ->
       accepted (snd (snd run)) = true /\ fst run = None))
  /\
  (let run := Part000.sendWithClient host auth from to msg alreadyTLS (n, []) in
   (accepted (snd (snd run)) = true -> fst run = None)
   /\ (forall e, In (Quit, Some e) (snd (snd run)) ->
       accepted (snd (snd run)) = true /\ fst run = None))
  /\
  (let run := Internal.sendMailWithTLS timeout addr auth from to msg (n, []) in
   forall e, In (Quit, Some e) (snd (snd run)) -> fst run = None)
  /\
  (let run := Part000.sendMailWithTLS timeout addr auth from to msg (n, []) in
   forall e, In (Quit, Some e) (snd (snd run)) -> fst run = None).
Proof.
  split; [|split; [|split]]; cbv zeta.
  - destruct (Internal_sendWithClient_quit host auth from to msg alreadyTLS n
                [] eq_refl) as (ext & E1 & E2 & E3 & E4).
    cbn [app] in E1. rewrite E1 in *. split; [exact E2|].
    intros e HQ. apply In_quit in HQ. auto.
  - destruct (Part000_sendWithClient_quit host auth from to msg alreadyTLS n
                [] eq_refl) as (ext & E1 & E2 & E3 & E4).
    cbn [app] in E1. rewrite E1 in *. split; [exact E2|].
    intros e HQ. apply In_quit in HQ. auto.
  - intros e HQ. apply In_quit in HQ. revert HQ.
    unfold Internal.sendMailWithTLS, Internal.tryImplicitTLS,
      Internal.tryStartTLS, sbind, sret, issue.
    destruct (net.SplitHostPort addr) as [[h p]|err]; [|discriminate].
    cbn [fst snd app]. answer.
    + answer; [discriminate|].
      destruct (Internal_sendWithClient_quit h auth from to msg false n1
        [(DialTLS timeout addr h, Some r); (DialTCP timeout addr, None)]
        eq_refl) as (ext & E1 & E2 & E3 & E4). auto.
    + destruct (Internal_sendWithClient_quit h auth from to msg true n0
        [(DialTLS timeout addr h, None)] eq_refl) as (ext & E1 & E2 & E3 & E4).
      destruct (Internal.sendWithClient h auth from to msg true _)
        as [[e1|] [n1 tr1]]; cbn [fst snd] in *; [|reflexivity].
      assert (Q : existsb isQuit tr1 = false).
      { destruct (existsb isQuit tr1); [|reflexivity].
        specialize (E2 (E3 eq_refl)). discriminate E2. }
      answer; [rewrite existsb_app, Q; discriminate|].
      destruct (Internal_sendWithClient_quit h auth from to msg false n2
        (tr1 ++ [(DialTCP timeout addr, None)])%list)
        as (ext' & F1 & F2 & F3 & F4); [now rewrite existsb_app, Q|]. auto.
  - intros e HQ. apply In_quit in HQ. revert HQ.
    unfold Part000.sendMailWithTLS, Part000.tryImplicitTLS,
      Part000.tryStartTLS, sbind, sret, issue.
    destruct (net.SplitHostPort addr) as [[h p]|err]; [|discriminate].
    cbn [fst snd app]. answer.
    + answer; [discriminate|].
      destruct (Part000_sendWithClient_quit h auth from to msg false n1
        [(DialTLS timeout addr h, Some r); (DialTCP timeout addr, None)]
        eq_refl) as (ext & E1 & E2 & E3 & E4). auto.
    + destruct (Part000_sendWithClient_quit h auth from to msg true n0
        [(DialTLS timeout addr h, None)] eq_refl) as (ext & E1 & E2 & E3 & E4).
      destruct (Part000.sendWithClient h auth from to msg true _)
        as [[e1|] [n1 tr1]]; cbn [fst snd] in *; [|reflexivity].
      assert (Q : existsb isQuit tr1 = false).
      { destruct (existsb isQuit tr1); [|reflexivity].
        specialize (E2 (E3 eq_refl)). discriminate E2. }
      answer; [rewrite existsb_app, Q; discriminate|].
      destruct (Part000_sendWithClient_quit h auth from to msg false n2
        (tr1 ++ [(DialTCP timeout addr, None)])%list)
        as (ext' & F1 & F2 & F3 & F4); [now rewrite existsb_app, Q|]. auto.
Qed.

End SessionFacts.

Lemma starttls_required_no_plaintext_fallback_witness :
  Internal.sendWithClient (peer := scripted) "smtp.example.com" None
    "from@example.com" ["to@example.com"] "hi" false (plainOnlyRelay, [])
  = (Some (Errorf "smtp server does not support STARTTLS; TLS required"),
     (plainOnlyRelay,
      [(NewClient "smtp.example.com", None); (Hello "localhost", None);
       (ClientClose, None)])).
Proof.
  exact (proj1 (proj1 (starttls_required_no_plaintext_fallback
    (peer := scripted) 0 "smtp.example.com:587" "smtp.example.com" None
    "from@example.com" ["to@example.com"] "hi" plainOnlyRelay)
    [] plainOnlyRelay plainOnlyRelay eq_refl eq_refl eq_refl)).
Defined.

(** C2, as stated, fails: the implicit TLS connection is established, the
    session over it fails at the greeting, and a second, plain connection is
    opened all the same. *)
Lemma session_failure_falls_back :
  let run := Internal.sendMailWithTLS (peer := scripted) 10 "smtp.example.com:465"
               None "from@example.com" ["to@example.com"] "hi"
               (greetingRejected, []) in
  let run' := Part000.sendMailWithTLS (peer := scripted) 10 "smtp.example.com:465"
               None "from@example.com" ["to@example.com"] "hi"
               (greetingRejected, []) in
  In (DialTLS 10 "smtp.example.com:465" "smtp.example.com", None) (snd (snd run))
  /\ In (Hello "localhost", Some (Errorf "554 go away")) (snd (snd run))
  /\ dials (snd (snd run))
     = [DialTLS 10 "smtp.example.com:465" "smtp.example.com";
        DialTCP 10 "smtp.example.com:465"]
  /\ dials (snd (snd run')) = dials (snd (snd run)).
Proof. vm_compute. intuition. Qed.

Lemma fallback_on_any_implicit_failure_witness :
  dials (snd (snd (Internal.sendMailWithTLS (peer := scripted) 10
     "smtp.example.com:465" None "from@example.com" ["to@example.com"] "hi"
     (greetingRejected, []))))
  = [DialTLS 10 "smtp.example.com:465" "smtp.example.com";
     DialTCP 10 "smtp.example.com:465"].
Proof.
  exact (proj2 (proj2 (proj1 (fallback_on_any_implicit_failure
    (peer := scripted) 10 "smtp.example.com:465" "smtp.example.com" "465" None
    "from@example.com" ["to@example.com"] "hi" greetingRejected eq_refl))
    (Errorf "554 go away") eq_refl)).
Defined.
(* ================================================================== *)
(** * The delivery orchestrator                                        *)
(* ================================================================== *)

Lemma last_cons {A : Type} (l : list A) (x d : A) : last (x :: l) d = last l x.
Proof.
  revert x d. induction l as [|y l IH]; intros x d; [reflexivity|].
  change (last (x :: y :: l) d) with (last (y :: l) d). now rewrite !IH.
Qed.

Section Orchestrator.
Context {T : Type} {tr : Transport T}.

Lemma attempts_spec (delay : Z) (host addr : string) (auth : option PlainAuth)
    (from : string) (to : list string) (msg : string) (k : nat) :
  forall (attempt : Z) (lastErr : option error) (m m' : Machine T)
         (r : outcome (option error)),
    attempts k attempt delay host addr auth from to msg lastErr m = (r, m') ->
    service m' = service m
    /\ smtpDialTimeout m' = smtpDialTimeout m
    /\ exists errs,
         Forall (fun e => exists w,
                   fst (sendMailFn (smtpDialTimeout m) addr auth from to msg w)
                   = Some e) errs
         /\ ((length errs = k
              /\ events m'
                 = (events m
                    ++ failedAttempts attempt delay host addr auth from to msg
                         errs)%list
              /\ r = Returns (last (map Some errs) lastErr))
             \/ ((length errs < k)%nat
                 /\ events m'
                    = (events m
                       ++ failedAttempts attempt delay host addr auth from to
                            msg errs
                       ++ pause (attempt + Z.of_nat (length errs)) delay
                       ++ [EvSendMail addr auth from to msg None;
                           EvInfo host addr "email sent"])%list
                 /\ r = Returns None
                 /\ exists w,
                      fst (sendMailFn (smtpDialTimeout m) addr auth from to msg w)
                      = None)).
Proof.
  induction k as [|k IH]; intros attempt lastErr m m' r E.
  - cbn in E. injection E as <- <-. repeat split. exists []. split; [constructor|].
    left. cbn. now rewrite app_nil_r.
  - cbn [attempts] in E. unfold bind at 1 in E.
    assert (P : exists m1,
      (if (attempt >? 0) && (delay >? 0) then emit (EvSleep delay) else ret tt) m
      = (Returns tt, m1)
      /\ service m1 = service m /\ smtpDialTimeout m1 = smtpDialTimeout m
      /\ world m1 = world m
      /\ events m1 = (events m ++ pause attempt delay)%list).
    { unfold pause. destruct ((attempt >? 0) && (delay >? 0)).
      - eexists. split; [reflexivity|]. cbn. auto.
      - exists m. split; [reflexivity|]. cbn. rewrite app_nil_r. auto. }
    destruct P as (m1 & P & S1 & D1 & W1 & E1). rewrite P in E. clear P.
    unfold bind at 1, call_sendMailFn in E.
    destruct (sendMailFn (smtpDialTimeout m1) addr auth from to msg (world m1))
      as [[e|] w'] eqn:Ecall.
    + unfold bind at 1, emit in E. cbn [service smtpDialTimeout world events] in E.
      apply IH in E. cbn [service smtpDialTimeout world events] in E.
      destruct E as (S2 & D2 & errs & F & E).
      split; [congruence|]. split; [congruence|].
      exists (e :: errs). split.
      { constructor; [exists (world m1); rewrite <- D1, Ecall; reflexivity|].
        now rewrite <- D1. }
      destruct E as [(L & Ev & R)|(L & Ev & R & W)].
      * left. split; [cbn; lia|]. split.
        -- rewrite Ev, E1. cbn [failedAttempts]. rewrite <- !app_assoc. reflexivity.
        -- rewrite R. cbn [map]. now rewrite last_cons.
      * right. split; [cbn; lia|]. split; [|split; [exact R|now rewrite <- D1]].
        rewrite Ev, E1. cbn [failedAttempts length].
        rewrite <- !app_assoc. cbn [app].
        replace (attempt + 1 + Z.of_nat (length errs))
          with (attempt + Z.of_nat (S (length errs))) by lia.
        reflexivity.
    + unfold bind, emit, ret in E.
      cbn [service smtpDialTimeout world events fst snd] in E.
      injection E as <- <-. cbn [service smtpDialTimeout world events].
      split; [assumption|]. split; [assumption|].
      exists []. split; [constructor|]. right. split; [cbn; lia|].
      split; [|split; [reflexivity|]].
      * rewrite E1. cbn [failedAttempts length app]. rewrite Z.add_0_r.
        rewrite <- !app_assoc. reflexivity.
      * exists (world m1). rewrite <- D1, Ecall. reflexivity.
Qed.





(** C8. On an initialized service whose configuration is disabled, [Send]
    returns nil for every message, hands one warning to the logging
    collaborator and does nothing else: the transport is not invoked (its
    state is untouched and no invocation is recorded). *)
Theorem Send_disabled_is_a_noop
    (email : MsgDef) (m : Machine T) (cfg : types.EmailConfig) :
  isInitialized (service m) = true ->
  Config (service m) = Some cfg ->
  types.Enabled cfg = false ->
  Send email m
  = (Returns None,
     {| service := service m; smtpDialTimeout := smtpDialTimeout m;
        world := world m;
        events := (events m
                   ++ [EvWarn "email service is disabled in the config"])%list |}).
Proof.
  intros HI HC HE. unfold Send, bind at 1, load. rewrite HI. cbn [negb].
  unfold bind at 1, derefConfig. rewrite HC, HE. reflexivity.
Qed.

(** C10. Whatever the message and the outcome, [Send] leaves the service as
    it found it: the stored configuration, the collaborators, the
    initialization flag and the once-guard are the same after the call as
    before, and so is the package's dial timeout. *)
Theorem Send_preserves_service (email : MsgDef) (m : Machine T) :
  service (snd (Send email m)) = service m
  /\ smtpDialTimeout (snd (Send email m)) = smtpDialTimeout m.
Proof.
  destruct (Send email m) as [r m'] eqn:E. cbn [snd]. revert E.
  unfold Send, bind at 1, load.
  destruct (isInitialized (service m)) eqn:HI; cbn [negb];
    [|intros [= _ <-]; split; reflexivity].
  unfold bind at 1, derefConfig.
  destruct (Config (service m)) as [cfg|] eqn:HC;
    [|intros [= _ <-]; split; reflexivity].
  destruct (types.Enabled cfg) eqn:HE; cbn [negb];
    [|intros [= _ <-]; split; reflexivity].
  match goal with
  | |- context [if ?c then ret ?x else _] =>
      destruct c; [intros [= _ <-]; split; reflexivity|]
  end.
  unfold bind.
  match goal with
  | |- context [attempts ?k ?a ?d ?h ?ad ?au ?f ?t ?mg ?l m] =>
      destruct (attempts k a d h ad au f t mg l m) as [r1 m1] eqn:E;
      apply attempts_spec in E; destruct E as (E1 & E2 & _)
  end.
  destruct r1 as [[e|]|]; intros [= _ <-]; split; assumption.
Qed.





End Orchestrator.


Lemma Send_disabled_is_a_noop_witness :
  Send (tr := alwaysDown) hello (machineOf (initialized cfgDisabled) 0%nat)
  = (Returns None,
     {| service := initialized cfgDisabled; smtpDialTimeout := 10 * Second;
        world := 0%nat;
        events := [EvWarn "email service is disabled in the config"] |}).
Proof.
  exact (Send_disabled_is_a_noop (tr := alwaysDown) hello
           (machineOf (initialized cfgDisabled) 0%nat) cfgDisabled
           eq_refl eq_refl eq_refl).
Defined.

(** The repository's retry test: two failures, then success on the third
    attempt, with the pauses in between. *)
Example Send_succeeds_on_third_attempt :
  let run := Send (tr := upOnThird) hello (machineOf (initialized cfgRetry) 0%nat) in
  fst run = Returns None
  /\ world (snd run) = 3%nat
  /\ map isSleep (events (snd run))
     = [false; false; true; false; false; true; false; false].
Proof. vm_compute. repeat split. Qed.

(* ================================================================== *)
(** * The lifecycle guard                                              *)
(* ================================================================== *)

Section Lifecycle.
Context {T : Type} {tr : Transport T}.

Ltac run_init :=
  unfold Initialize, ServiceGo.Initialize, bind, load, store, lift, ret,
    setDialTimeout, initOnce_Do;
  cbn [service smtpDialTimeout world events].

(** Once the guard has run without setting the flag, a call does nothing and
    returns nil. *)
Lemma Initialize_spent (m : Machine T) :
  isInitialized (service m) = false ->
  initOnce (service m) = true ->
  Initialize m = (Returns None, m)
  /\ ServiceGo.Initialize m = (Returns None, m).
Proof. intros HI HO. run_init. rewrite HI, HO. split; reflexivity. Qed.

Lemma Initialize_error_spends (m m1 : Machine T) (e : error) :
  Initialize m = (Returns (Some e), m1) ->
  isInitialized (service m1) = false /\ initOnce (service m1) = true.
Proof.
  run_init.
  destruct (isInitialized (service m)) eqn:HI; [discriminate|].
  destruct (initOnce (service m)) eqn:HO; [discriminate|].
  destruct (LoggerService (service m)); [|intros [= _ <-]; cbn; auto].
  destruct (ConfigService (service m)) as [[cfg|err]|];
    try (intros [= _ <-]; cbn; auto).
  cbn [service smtpDialTimeout world events].
  destruct (validateConfig _ _) as [[err|]|];
    intros [= <-]; subst m1; cbn; auto.
Qed.

Lemma ServiceGo_Initialize_error_spends (m m1 : Machine T) (e : error) :
  ServiceGo.Initialize m = (Returns (Some e), m1) ->
  isInitialized (service m1) = false /\ initOnce (service m1) = true.
Proof.
  run_init.
  destruct (isInitialized (service m)) eqn:HI; [discriminate|].
  destruct (initOnce (service m)) eqn:HO; [discriminate|].
  destruct (LoggerService (service m)); [|intros [= _ <-]; cbn; auto].
  destruct (Config (service m)) as [cfg|] eqn:HC;
    destruct (ConfigService (service m)) as [cs|];
    try (intros [= _ <-]; cbn; auto);
    destruct (validateConfig _ _) as [[err|]|];
    intros [= <-]; subst m1; cbn; auto.
Qed.

(** C6 fails on the code. When a first call of [Initialize] returns an
    error, the service is left uninitialized with its once-guard spent, and
    the next call returns nil, reporting success, without doing any setup
    and without initializing the service. This holds for the guard of
    service.go and for that of the package's main file. *)
Theorem Initialize_reports_success_after_failure
    (m : Machine T) (e : error) :
  (fst (Initialize m) = Returns (Some e) ->
   let m1 := snd (Initialize m) in
   Initialize m1 = (Returns None, m1)
   /\ isInitialized (service m1) = false)
  /\ (fst (ServiceGo.Initialize m) = Returns (Some e) ->
      let m1 := snd (ServiceGo.Initialize m) in
      ServiceGo.Initialize m1 = (Returns None, m1)
      /\ isInitialized (service m1) = false).
Proof.
  split; intros H; cbv zeta.
  - destruct (Initialize m) as [r m1] eqn:E. cbn [fst snd] in *. subst r.
    apply Initialize_error_spends in E. destruct E as [HI HO].
    split; [apply (Initialize_spent m1 HI HO) | exact HI].
  - destruct (ServiceGo.Initialize m) as [r m1] eqn:E. cbn [fst snd] in *. subst r.
    apply ServiceGo_Initialize_error_spends in E. destruct E as [HI HO].
    split; [apply (Initialize_spent m1 HI HO) | exact HI].
Qed.

(** What does hold of repeated calls: the second of two calls in a row
    changes nothing, so the setup is performed at most once. *)
Lemma Initialize_second_call_changes_nothing (m : Machine T) :
  snd (Initialize (snd (Initialize m))) = snd (Initialize m).
Proof.
  destruct (Initialize m) as [r m1] eqn:E. cbn [snd].
  assert (H : isInitialized (service m1) = true \/ initOnce (service m1) = true).
  { revert E. run_init.
    destruct (isInitialized (service m)) eqn:HI; [intros [= _ <-]; auto|].
    destruct (initOnce (service m)) eqn:HO; [intros [= _ <-]; auto|].
    destruct (LoggerService (service m)); [|intros [= _ <-]; cbn; auto].
    destruct (ConfigService (service m)) as [[cfg|err]|];
      try (intros [= _ <-]; cbn; auto).
    cbn [service smtpDialTimeout world events].
    destruct (validateConfig _ _) as [[err|]|];
      intros [= _ <-]; cbn; auto. }
  run_init.
  destruct (isInitialized (service m1)) eqn:HI; [reflexivity|].
  destruct H as [H|H]; [discriminate|]. now rewrite H.
Qed.


End Lifecycle.

Lemma Initialize_reports_success_after_failure_witness :
  let m := machineOf (T := nat) withoutLogger 0%nat in
  fst (Initialize m)
  = Returns (Some (errors.Msg "logger service has not been set/injected"
                     (errors.New "email.Service.Initialize")))
  /\ fst (Initialize (snd (Initialize m))) = Returns None
  /\ isInitialized (service (snd (Initialize (snd (Initialize m))))) = false.
Proof.
  cbv zeta. split; [reflexivity|].
  destruct (proj1 (Initialize_reports_success_after_failure
              (machineOf (T := nat) withoutLogger 0%nat)
              (errors.Msg "logger service has not been set/injected"
                 (errors.New "email.Service.Initialize"))) eq_refl) as [R I].
  rewrite R. split; [reflexivity|exact I].
Defined.
(* ================================================================== *)
(** * The MIME composer                                                *)
(* ================================================================== *)

Lemma append_nil_r (s : string) : s ++ "" = s.
Proof. induction s; simpl; congruence. Qed.

Lemma writeHeaders_lines (entries : list (string * list string)) :
  Forall (fun kv => snd kv <> []) entries ->
  writeHeaders entries = flatten (map headerLine entries).
Proof.
  induction 1 as [|[k v] entries Hv _ IH]; [reflexivity|].
  cbn [writeHeaders map flatten fold_right]. fold (flatten (map headerLine entries)).
  rewrite IH. destruct v as [|v0 v]; [now elim Hv|]. reflexivity.
Qed.

(** The recipient string of the repository's test splits in four. *)
Example splitAndTrim_four :
  splitAndTrim "a@x.com; b@y.com c@z.com, d@w.com"
  = ["a@x.com"; "b@y.com"; "c@z.com"; "d@w.com"].
Proof. reflexivity. Qed.

Section ComposerFacts.
Context {Qso : Type}.

Lemma composeHeader_entries (env : ComposeEnv Qso) (from : string)
    (tos : list string) (subject : string) :
  composeHeader env from tos subject
  = [ ("From", [from]); ("To", [strings.Join tos ", "]); ("Subject", [subject]);
      ("Date", [date env]); ("Message-Id", [generateMessageID env]);
      ("Mime-Version", ["1.0"]);
      ("Content-Type", ["multipart/mixed; boundary=" ++ quoted (Boundary env)]) ].
Proof. reflexivity. Qed.

Lemma Build_success (s : Service) (env : ComposeEnv Qso)
    (from subject msg : string) (to : list string) (slice : list Qso)
    (doc : MsgDef) :
  BuildEmailWithADIFAttachment s env from subject msg to slice
  = Returns (doc, None) ->
  exists from' tos subject' msg' adif,
    ComposeToAdifString env slice = inl adif
    /\ From doc = from' /\ To doc = tos
    /\ Msg doc
       = writeHeaders (rangeOrder env (composeHeader env from' tos subject'))
         ++ CRLF ++ composeBody env msg' adif.
Proof.
  unfold BuildEmailWithADIFAttachment, obind, configField.
  repeat match goal with
  | |- context [match Config s with _ => _ end] =>
      destruct (Config s) as [cfg|]; try discriminate
  | |- context [if ?c then _ else _] => destruct c
  | |- context [match to with _ => _ end] => destruct to as [|t0 to']
  | |- context [match splitAndTrim ?x with _ => _ end] =>
      destruct (splitAndTrim x) as [|t0 to']; try discriminate
  | |- context [match slice with _ => _ end] =>
      destruct slice as [|q slice']; try discriminate
  | |- context [match ComposeToAdifString env ?x with _ => _ end] =>
      destruct (ComposeToAdifString env x) as [adif|err] eqn:EC; try discriminate
  end;
  intros [= <-]; do 5 eexists; (split; [reflexivity|]);
  cbn [From To Msg]; (split; [reflexivity|]); (split; [reflexivity|]);
  rewrite <- append_assoc; reflexivity.
Qed.

(** C3, as amended. In every document the composer returns, the header
    block consists of the seven lines From, To, Subject, Date, Message-Id,
    Mime-Version and Content-Type, each once, each of the form
    [Header: value] ended by CRLF, written in the order in which the range
    over the header map visits its entries (an order the map does not fix);
    the block is followed by a blank line and the multipart body. Two calls
    given the same inputs, the same environment and the same visiting order
    return the same document. *)
Theorem headers_follow_map_iteration_order
    (s : Service) (env : ComposeEnv Qso) (from subject msg : string)
    (to : list string) (slice : list Qso) (doc : MsgDef) :
  (forall h, Permutation (rangeOrder env h) h) ->
  BuildEmailWithADIFAttachment s env from subject msg to slice
  = Returns (doc, None) ->
  exists subject' msg' adif,
    let hdr := composeHeader env (From doc) (To doc) subject' in
    Msg doc
    = flatten (map headerLine (rangeOrder env hdr))
      ++ CRLF ++ composeBody env msg' adif
    /\ Permutation (map headerLine (rangeOrder env hdr))
         (headerLines env (From doc) (To doc) subject').
Proof.
  intros HP HB. apply Build_success in HB.
  destruct HB as (from' & tos & subject' & msg' & adif & _ & <- & <- & HM).
  exists subject', msg', adif. cbv zeta. split.
  - rewrite HM. f_equal. apply writeHeaders_lines.
    apply (Permutation_Forall (Permutation_sym (HP _))).
    rewrite composeHeader_entries. repeat constructor; discriminate.
  - change (headerLines env (From doc) (To doc) subject')
      with (map headerLine (composeHeader env (From doc) (To doc) subject')).
    apply Permutation_map, HP.
Qed.

(** C7, as amended. When the explicit sender is blank and the
    configuration has no default sender, the composer raises no error on
    that account: it fails only when the recipients resolve to nothing, when
    there are no records or when the compositor fails, and otherwise returns
    a document whose sender is the empty string. *)
Theorem Build_does_not_check_the_sender
    (s : Service) (cfg : types.EmailConfig) (env : ComposeEnv Qso)
    (from subject msg : string) (to : list string) (slice : list Qso) :
  Config s = Some cfg ->
  strings.TrimSpace from = "" ->
  types.From cfg = "" ->
  let op : Op := "email.Service.BuildEmailWithADIFAttachment" in
  let tos := recipientsOf to cfg in
  let run := BuildEmailWithADIFAttachment s env from subject msg to slice in
  (tos = [] ->
   run = Returns (MsgDef_zero,
                  Some (errors.Msg "email TO address cannot be empty"
                          (errors.New op))))
  /\ (tos <> [] -> slice = [] ->
      run = Returns (MsgDef_zero,
                     Some (errors.Msg "QSO slice cannot be empty"
                             (errors.New op))))
  /\ (tos <> [] -> slice <> [] ->
      forall err, ComposeToAdifString env slice = inr err ->
      run = Returns (MsgDef_zero,
                     Some (errors.Msg "failed to compose ADIF string"
                             (errors.Err err (errors.New op)))))
  /\ (tos <> [] -> slice <> [] ->
      forall adif, ComposeToAdifString env slice = inl adif ->
      run = Returns
              ({| From := ""; To := tos;
                  Msg := (writeHeaders
                            (rangeOrder env
                               (composeHeader env "" tos (subjectOf subject cfg)))
                          ++ CRLF)
                         ++ composeBody env (bodyOf msg cfg) adif |}, None)).
Proof.
  intros HC HF HD. cbv zeta.
  unfold BuildEmailWithADIFAttachment, obind, configField, recipientsOf,
    subjectOf, bodyOf.
  rewrite HC, HF, HD. cbn [String.eqb].
  repeat split.
  - intros Ht. destruct to as [|t0 to']; [|discriminate Ht]. now rewrite Ht.
  - intros Ht ->. destruct to as [|t0 to'].
    + destruct (splitAndTrim (types.To cfg)); [now elim Ht|].
      destruct (strings.TrimSpace subject =? "")%string,
               (strings.TrimSpace msg =? "")%string; reflexivity.
    + destruct (strings.TrimSpace subject =? "")%string,
               (strings.TrimSpace msg =? "")%string; reflexivity.
  - intros Ht Hs err HE. destruct slice as [|q slice']; [now elim Hs|].
    destruct to as [|t0 to'].
    + destruct (splitAndTrim (types.To cfg)); [now elim Ht|].
      destruct (strings.TrimSpace subject =? "")%string,
               (strings.TrimSpace msg =? "")%string; now rewrite HE.
    + destruct (strings.TrimSpace subject =? "")%string,
               (strings.TrimSpace msg =? "")%string; now rewrite HE.
  - intros Ht Hs adif HE. destruct slice as [|q slice']; [now elim Hs|].
    destruct to as [|t0 to'].
    + destruct (splitAndTrim (types.To cfg)); [now elim Ht|].
      destruct (strings.TrimSpace subject =? "")%string,
               (strings.TrimSpace msg =? "")%string; now rewrite HE.
    + destruct (strings.TrimSpace subject =? "")%string,
               (strings.TrimSpace msg =? "")%string; now rewrite HE.
Qed.

End ComposerFacts.

(** The empty sender is caught when the document is handed to [Send]. *)
Lemma Send_rejects_empty_sender {T : Type} {tr : Transport T}
    (doc : MsgDef) (m : Machine T) (cfg : types.EmailConfig) :
  isInitialized (service m) = true ->
  Config (service m) = Some cfg ->
  types.Enabled cfg = true ->
  senderOf doc cfg = "" ->
  Send doc m
  = (Returns (Some (errors.Msg "email from address cannot be empty"
                      (errors.New "email.Service.Send"))), m).
Proof.
  intros HI HC HE HF. unfold Send, bind at 1, load. rewrite HI. cbn [negb].
  unfold bind at 1, derefConfig. rewrite HC, HE. cbn [negb].
  fold (senderOf doc cfg). rewrite HF. reflexivity.
Qed.

Lemma headers_follow_map_iteration_order_witness :
  exists subject' msg' adif,
    let hdr := composeHeader (envWith (@rev _)) (From docReversed)
                 (To docReversed) subject' in
    Msg docReversed
    = flatten (map headerLine (rangeOrder (envWith (@rev _)) hdr))
      ++ CRLF ++ composeBody (envWith (@rev _)) msg' adif
    /\ Permutation (map headerLine (rangeOrder (envWith (@rev _)) hdr))
         (headerLines (envWith (@rev _)) (From docReversed) (To docReversed)
            subject').
Proof.
  exact (headers_follow_map_iteration_order (serviceOf cfgCompose)
           (envWith (@rev _)) "" "" "hello world" [] [tt] docReversed
           (fun h => Permutation_sym (Permutation_rev h)) eq_refl).
Defined.

(** C3, as stated, fails: two calls with the same arguments, clock readings,
    identifiers and boundary, which differ only in the order in which the
    header map happens to be visited, emit the header lines in different
    orders, and one of them does not follow the order of insertion. *)
Lemma header_order_is_not_stable :
  let build := fun order =>
    BuildEmailWithADIFAttachment (serviceOf cfgCompose) (envWith order)
      "" "" "hello world" [] [tt] in
  exists doc1 doc2,
    build (fun h => h) = Returns (doc1, None)
    /\ build (@rev _) = Returns (doc2, None)
    /\ From doc1 = From doc2 /\ To doc1 = To doc2
    /\ String.prefix "From: " (Msg doc1) = true
    /\ String.prefix "Content-Type: " (Msg doc2) = true
    /\ Msg doc1 <> Msg doc2.
Proof.
  cbv zeta. do 2 eexists.
  split; [reflexivity|]. split; [reflexivity|].
  split; [reflexivity|]. split; [reflexivity|].
  split; [reflexivity|]. split; [reflexivity|].
  vm_compute. discriminate.
Qed.

Lemma Build_does_not_check_the_sender_witness :
  exists doc,
    BuildEmailWithADIFAttachment (serviceOf cfgNoSender) (envWith (fun h => h))
      "  " "" "hello world" [] [tt] = Returns (doc, None)
    /\ From doc = "".
Proof.
  eexists. split.
  - exact (proj2 (proj2 (proj2 (Build_does_not_check_the_sender
      (serviceOf cfgNoSender) cfgNoSender (envWith (fun h => h))
      "  " "" "hello world" [] [tt] eq_refl eq_refl eq_refl)))
      ltac:(discriminate) ltac:(discriminate) "<eoh>" eq_refl).
  - reflexivity.
Defined.

(** C7, as stated, fails: with a blank sender argument and no default
    sender the composer returns a document, and no error. *)
Lemma Build_accepts_empty_sender :
  exists doc,
    BuildEmailWithADIFAttachment (serviceOf cfgNoSender) (envWith (fun h => h))
      "  " "" "hello world" [] [tt] = Returns (doc, None)
    /\ strings.TrimSpace "  " = ""
    /\ types.From cfgNoSender = ""
    /\ From doc = ""
    /\ String.prefix ("From: " ++ CRLF) (Msg doc) = true.
Proof. eexists. repeat split. Qed.
(* ================================================================== *)
(** * Delivery, end to end                                             *)
(* ================================================================== *)

Lemma quits_app (tr ext : Trace) : quits (tr ++ ext)%list = (quits tr + quits ext)%nat.
Proof. unfold quits. now rewrite filter_app, length_app. Qed.

Lemma quits_zero (tr : Trace) : existsb isQuit tr = false -> quits tr = O.
Proof.
  unfold quits. induction tr as [|x tr IH]; [reflexivity|].
  cbn [existsb filter]. destruct (isQuit x); [discriminate|]. exact IH.
Qed.

Lemma quits_rcpts (ext : Trace) : forallb isRcpt ext = true -> quits ext = O.
Proof.
  intros H. apply quits_zero. now apply existsb_rcpts; [exact rcpt_not_quit|].
Qed.

Section EndToEnd.
Context {Net : Type} {peer : Peer Net}.

(** Run the recipients loop met in the goal. *)
Ltac recipients :=
  match goal with
  | |- context [Part000.rcptEach ?op ?to (?n, ?tr)] =>
      let r := fresh "r" in
      let n' := fresh "n" in
      let tr' := fresh "tr" in
      let ext := fresh "ext" in
      let E := fresh "E" in
      let Hext := fresh "Hext" in
      destruct (Part000.rcptEach op to (n, tr)) as [r [n' tr']] eqn:E;
      apply Part000_rcptEach_trace in E; destruct E as (ext & -> & Hext);
      destruct r; cbv beta iota; cbn [fst snd]
  end.

(** A session adds at most one QUIT to the trace, and none when it returns
    an error. *)
Lemma Part000_sendWithClient_quits host auth from to msg alreadyTLS n tr
    (r : option error) (n' : Net) (tr' : Trace) :
  Part000.sendWithClient host auth from to msg alreadyTLS (n, tr) = (r, (n', tr')) ->
  (r = None /\ (quits tr' <= quits tr + 1)%nat)
  \/ (r <> None /\ quits tr' = quits tr).
Proof.
  unfold Part000.sendWithClient, defer, orReturn, sbind, sret, issue, Extension.
  cbn [fst snd].
  destruct alreadyTLS, auth; cbn [negb]; repeat first [answer | recipients];
    intros [= <- _ <-];
    rewrite ?quits_app;
    repeat match goal with
    | H : forallb isRcpt ?e = true |- _ => rewrite (quits_rcpts e H); clear H
    end;
    cbn [quits filter isQuit fst length];
    solve [ right; split; [discriminate | lia] | left; split; [reflexivity | lia] ].
Qed.

Lemma sendMailWithTLS_quits timeout addr auth from to msg n tr
    (r : option error) (n' : Net) (tr' : Trace) :
  Part000.sendMailWithTLS timeout addr auth from to msg (n, tr) = (r, (n', tr')) ->
  (r = None /\ (quits tr' <= quits tr + 1)%nat)
  \/ (r <> None /\ quits tr' = quits tr).
Proof.
  unfold Part000.sendMailWithTLS, Part000.tryImplicitTLS, Part000.tryStartTLS,
    sbind, sret, issue.
  destruct (net.SplitHostPort addr) as [[h p]|err];
    [|intros [= <- _ <-]; right; split; [discriminate|reflexivity]].
  cbn [fst snd]. answer.
  - answer.
    + intros [= <- _ <-]. right. split; [discriminate|].
      rewrite !quits_app. cbn. lia.
    + intros ES. apply Part000_sendWithClient_quits in ES.
      rewrite !quits_app in ES. cbn in ES.
      destruct ES as [[R Q]|[R Q]]; [left|right]; (split; [exact R|lia]).
  - match goal with
    | |- context [Part000.sendWithClient ?h ?a ?f ?t ?mg true (?n1, ?tr1)] =>
        destruct (Part000.sendWithClient h a f t mg true (n1, tr1))
          as [[e|] [n2 tr2]] eqn:ES;
        apply Part000_sendWithClient_quits in ES;
        rewrite !quits_app in ES; cbn in ES
    end.
    + destruct ES as [[R _]|[_ Q]]; [discriminate R|].
      answer.
      * intros [= <- _ <-]. right. split; [discriminate|].
        rewrite quits_app. cbn. lia.
      * intros ES. apply Part000_sendWithClient_quits in ES.
        rewrite !quits_app in ES. cbn in ES.
        destruct ES as [[R Q']|[R Q']]; [left|right]; (split; [exact R|lia]).
    + destruct ES as [[_ Q]|[R _]]; [|now elim R].
      intros [= <- _ <-]. left. split; [reflexivity|lia].
Qed.

Lemma attempts_quits (delay : Z) (host addr : string) (auth : option PlainAuth)
    (from : string) (to : list string) (msg : string) (k : nat) :
  forall (attempt : Z) (lastErr : option error) (m m' : Machine (Net * Trace))
         (r : outcome (option error)),
    attempts k attempt delay host addr auth from to msg lastErr m = (r, m') ->
    quits (snd (world m')) = quits (snd (world m))
    \/ (r = Returns None
        /\ (quits (snd (world m')) <= quits (snd (world m)) + 1)%nat).
Proof.
  induction k as [|k IH]; intros attempt lastErr m m' r E.
  - cbn in E. injection E as <- <-. now left.
  - cbn [attempts] in E. unfold bind at 1 in E.
    assert (P : exists m1,
      (if (attempt >? 0) && (delay >? 0) then emit (EvSleep delay) else ret tt) m
      = (Returns tt, m1)
      /\ smtpDialTimeout m1 = smtpDialTimeout m /\ world m1 = world m).
    { destruct ((attempt >? 0) && (delay >? 0)); eexists;
        (split; [reflexivity|]); cbn; auto. }
    destruct P as (m1 & P & D1 & W1). rewrite P in E. clear P.
    unfold bind at 1, call_sendMailFn in E.
    unfold sendMailFn, sendMailWithTLS_Transport in E.
    destruct (world m1) as [n tr0] eqn:W.
    destruct (Part000.sendMailWithTLS (smtpDialTimeout m1) addr auth from to msg
                (n, tr0)) as [[e|] [n' tr']] eqn:Q;
      apply sendMailWithTLS_quits in Q.
    + destruct Q as [[R _]|[_ Q]]; [discriminate R|].
      unfold bind at 1, emit in E. cbn [service smtpDialTimeout world events] in E.
      apply IH in E. cbn [world snd] in E. rewrite <- W1. cbn [snd].
      destruct E as [E|[E1 E2]]; [left|right; split; [exact E1|]]; lia.
    + destruct Q as [[_ Q]|[R _]]; [|now elim R].
      unfold bind, emit, ret in E.
      cbn [service smtpDialTimeout world events fst snd] in E.
      injection E as <- <-. cbn [world snd]. rewrite <- W1. cbn [snd].
      right. split; [reflexivity|exact Q].
Qed.

(** Over the negotiator, a call of [Send] lets at most one session reach
    QUIT, and when one does the call returns nil: a message that was handed
    over is not sent again. *)
Lemma Send_never_resends (email : MsgDef) (m : Machine (Net * Trace)) :
  let run := Send (tr := sendMailWithTLS_Transport) email m in
  (quits (snd (world (snd run))) <= quits (snd (world m)) + 1)%nat
  /\ (quits (snd (world m)) < quits (snd (world (snd run))) ->
      fst run = Returns None)%nat.
Proof.
  cbv zeta. destruct (Send email m) as [r m'] eqn:E. cbn [fst snd]. revert E.
  unfold Send, bind at 1, load.
  destruct (isInitialized (service m)) eqn:HI; cbn [negb];
    [|intros [= _ <-]; split; lia].
  unfold bind at 1, derefConfig.
  destruct (Config (service m)) as [cfg|] eqn:HC;
    [|intros [= _ <-]; split; lia].
  destruct (types.Enabled cfg) eqn:HE; cbn [negb];
    [|intros [= _ <-]; cbn; split; lia].
  match goal with
  | |- context [if ?c then ret ?x else _] =>
      destruct c; [intros [= _ <-]; split; lia|]
  end.
  unfold bind.
  match goal with
  | |- context [attempts ?k ?a ?d ?h ?ad ?au ?f ?t ?mg ?l m] =>
      destruct (attempts k a d h ad au f t mg l m) as [r1 m1] eqn:E;
      apply attempts_quits in E
  end.
  destruct E as [E|[-> E]].
  - destruct r1 as [[e|]|]; intros [= _ <-]; split; lia.
  - intros [= <- <-]. split; [lia|reflexivity].
Qed.

(** C5. In a session whose payload was written in full and whose data
    section was closed with the server's acceptance, the result is nil
    whatever the server answers to QUIT: a failed QUIT is only ever found
    after such an acceptance and is not reported. The delivery attempt that
    holds such a session returns nil as well, and so does the call of [Send]
    that made the attempt: it lets at most one session reach QUIT and tries
    nothing after it. Both revisions of the negotiator are covered. *)
Theorem quit_failure_is_swallowed
    (timeout : Z) (addr host : string) (auth : option PlainAuth)
    (from : string) (to : list string) (msg : string) (alreadyTLS : bool)
    (n : Net) :
  (let run := Internal.sendWithClient host auth from to msg alreadyTLS (n, []) in
   (accepted (snd (snd run)) = true -> fst run = None)
   /\ (forall e, In (Quit, Some e) (snd (snd run)) ->
       accepted (snd (snd run)) = true /\ fst run = None))
  /\
  (let run := Part000.sendWithClient host auth from to msg alreadyTLS (n, []) in
   (accepted (snd (snd run)) = true -> fst run = None)
   /\ (forall e, In (Quit, Some e) (snd (snd run)) ->
       accepted (snd (snd run)) = true /\ fst run = None))
  /\
  (let run := Internal.sendMailWithTLS timeout addr auth from to msg (n, []) in
   forall e, In (Quit, Some e) (snd (snd run)) -> fst run = None)
  /\
  (let run := Part000.sendMailWithTLS timeout addr auth from to msg (n, []) in
   forall e, In (Quit, Some e) (snd (snd run)) -> fst run = None)
  /\
  (forall (email : MsgDef) (m : Machine (Net * Trace)),
     let run := Send (tr := sendMailWithTLS_Transport) email m in
     (quits (snd (world (snd run))) <= quits (snd (world m)) + 1)%nat
     /\ (quits (snd (world m)) < quits (snd (world (snd run))) ->
         fst run = Returns None)%nat).
Proof.
  destruct (quit_failure_in_session timeout addr host auth from to msg
              alreadyTLS n) as (A & B & C & D).
  split; [exact A|]. split; [exact B|]. split; [exact C|]. split; [exact D|].
  intros email m. apply Send_never_resends.
Qed.

End EndToEnd.

Lemma quit_failure_is_swallowed_witness :
  fst (Internal.sendMailWithTLS (peer := scripted) 10 "smtp.example.com:465"
         None "from@example.com" ["to@example.com"] "hi" (quitDropped, []))
  = None.
Proof.
  apply (proj1 (proj2 (proj2 (quit_failure_is_swallowed (peer := scripted) 10
    "smtp.example.com:465" "smtp.example.com" None "from@example.com"
    ["to@example.com"] "hi" true quitDropped))) (Errorf "EOF")).
  vm_compute. intuition.
Defined.
(* ================================================================== *)
(** * The hostname sanitizer                                           *)
(* ================================================================== *)

Lemma sanitize_keeps (host : string) :
  forall skip, allBytes keeps (sanitize skip host) = true.
Proof.
  induction host as [|c r IH]; intros skip; [reflexivity|].
  cbn [sanitize]. destruct skip as [|k]; [|apply IH].
  destruct (keeps c) eqn:K; cbn [allBytes]; [rewrite K|]; rewrite IH; reflexivity.
Qed.

Lemma sanitize_kept (host : string) :
  allBytes keeps host = true -> sanitize 0 host = host.
Proof.
  induction host as [|c r IH]; [reflexivity|].
  cbn [allBytes sanitize]. intros H. apply andb_prop in H. destruct H as [K H].
  rewrite K. now rewrite IH.
Qed.

Lemma sanitize_hyphens (host : string) :
  allBytes (fun c => negb (alnum c)) host = true ->
  forall skip, allBytes (Ascii.eqb "-") (sanitize skip host) = true.
Proof.
  induction host as [|c r IH]; intros H skip; [reflexivity|].
  cbn [allBytes] in H. apply andb_prop in H. destruct H as [A H].
  cbn [sanitize]. destruct skip as [|k]; [|now apply IH].
  destruct (keeps c) eqn:K; cbn [allBytes]; rewrite IH by assumption.
  - unfold keeps in K. fold (alnum c) in K. apply negb_true_iff in A.
    rewrite A in K. cbn [orb] in K. now rewrite Ascii.eqb_sym, K.
  - reflexivity.
Qed.

Lemma trimLeftByte_all (p : ascii -> bool) (s : string) (c : ascii) :
  allBytes p s = true -> allBytes p (trimLeftByte s c) = true.
Proof.
  induction s as [|a r IH]; [reflexivity|]. cbn [trimLeftByte]. intros H.
  destruct (Ascii.eqb a c); [|exact H].
  cbn [allBytes] in H. apply andb_prop in H. now apply IH.
Qed.

Lemma trimRightByte_all (p : ascii -> bool) (s : string) (c : ascii) :
  allBytes p s = true -> allBytes p (trimRightByte s c) = true.
Proof.
  induction s as [|a r IH]; [reflexivity|]. cbn [trimRightByte allBytes].
  intros H. apply andb_prop in H. destruct H as [Ha H]. specialize (IH H).
  destruct (trimRightByte r c) as [|b r'].
  - destruct (Ascii.eqb a c); [reflexivity|]. cbn [allBytes]. now rewrite Ha.
  - cbn [allBytes] in *. now rewrite Ha, IH.
Qed.

Lemma trimLeftByte_first (s : string) (c : ascii) :
  firstByte (trimLeftByte s c) <> Some c.
Proof.
  induction s as [|a r IH]; [discriminate|]. cbn [trimLeftByte].
  destruct (Ascii.eqb a c) eqn:E; [exact IH|].
  cbn [firstByte]. intros [= ->]. now rewrite Ascii.eqb_refl in E.
Qed.

Lemma trimRightByte_last (s : string) (c : ascii) :
  lastByte (trimRightByte s c) <> Some c.
Proof.
  induction s as [|a r IH]; [discriminate|]. cbn [trimRightByte].
  destruct (trimRightByte r c) as [|b r'].
  - destruct (Ascii.eqb a c) eqn:E; [discriminate|].
    cbn [lastByte]. intros [= ->]. now rewrite Ascii.eqb_refl in E.
  - exact IH.
Qed.

Lemma trimRightByte_first (s : string) (c : ascii) :
  firstByte s <> Some c -> firstByte (trimRightByte s c) <> Some c.
Proof.
  destruct s as [|a r]; [discriminate|]. cbn [trimRightByte firstByte].
  intros H. destruct (trimRightByte r c); [|exact H].
  destruct (Ascii.eqb a c); [discriminate|exact H].
Qed.

Lemma trimLeftByte_id (s : string) (c : ascii) :
  firstByte s <> Some c -> trimLeftByte s c = s.
Proof.
  destruct s as [|a r]; [reflexivity|]. cbn [trimLeftByte firstByte]. intros H.
  destruct (Ascii.eqb a c) eqn:E; [|reflexivity].
  apply Ascii.eqb_eq in E. now subst.
Qed.

Lemma trimRightByte_id (s : string) (c : ascii) :
  lastByte s <> Some c -> trimRightByte s c = s.
Proof.
  induction s as [|a r IH]; [reflexivity|]. cbn [trimRightByte]. intros H.
  destruct r as [|b r'].
  - cbn [trimRightByte]. cbn [lastByte] in H.
    destruct (Ascii.eqb a c) eqn:E; [|reflexivity].
    apply Ascii.eqb_eq in E. now subst.
  - rewrite IH by exact H. reflexivity.
Qed.

Lemma trimLeftByte_hyphens (s : string) (c : ascii) :
  allBytes (Ascii.eqb c) s = true -> trimLeftByte s c = "".
Proof.
  induction s as [|a r IH]; [reflexivity|]. cbn [allBytes trimLeftByte].
  intros H. apply andb_prop in H. destruct H as [E H].
  rewrite Ascii.eqb_sym, E. now apply IH.
Qed.

(** The client identity is always fit for the greeting, whatever the
    machine reports as its name (or fails to report): it is not empty, it
    is made of ASCII letters, digits and hyphens only, and it neither starts
    nor ends with a hyphen. *)
Theorem resolveHostname_is_safe (host : string) (err : option error) :
  let name := resolveHostname host err in
  name <> ""
  /\ allBytes keeps name = true
  /\ firstByte name <> Some "-"%char
  /\ lastByte name <> Some "-"%char.
Proof.
  cbv zeta. unfold resolveHostname.
  assert (L : "localhost" <> "" /\ allBytes keeps "localhost" = true
              /\ firstByte "localhost" <> Some "-"%char
              /\ lastByte "localhost" <> Some "-"%char)
    by (repeat split; discriminate).
  destruct err; [exact L|].
  destruct (host =? "")%string; [exact L|].
  destruct (String.eqb_spec (Trim1 (sanitize 0 host) "-") "") as [E|E]; [exact L|].
  split; [exact E|]. unfold Trim1 in *. split; [|split].
  - apply trimRightByte_all, trimLeftByte_all, sanitize_keeps.
  - apply trimRightByte_first, trimLeftByte_first.
  - apply trimRightByte_last.
Qed.

(** A name that is already fit (not empty, letters, digits and hyphens
    only, no hyphen at either end) is used as it is. *)
Theorem resolveHostname_keeps_fit_names (host : string) :
  host <> "" ->
  allBytes keeps host = true ->
  firstByte host <> Some "-"%char ->
  lastByte host <> Some "-"%char ->
  resolveHostname host None = host.
Proof.
  intros HE HK HF HL. unfold resolveHostname, Trim1.
  rewrite (eqb_empty_false _ HE), (sanitize_kept _ HK),
    (trimLeftByte_id _ _ HF), (trimRightByte_id _ _ HL).
  now rewrite (eqb_empty_false _ HE).
Qed.

Lemma resolveHostname_keeps_fit_names_witness :
  resolveHostname "mail-01" None = "mail-01".
Proof.
  apply resolveHostname_keeps_fit_names; [discriminate | reflexivity | | ];
    discriminate.
Defined.

(** When the lookup fails, or the reported name holds no ASCII letter or
    digit at all, the identity is the literal localhost. *)
Theorem resolveHostname_falls_back (host : string) (err : option error) :
  err <> None \/ allBytes (fun c => negb (alnum c)) host = true ->
  resolveHostname host err = "localhost".
Proof.
  unfold resolveHostname. intros [H|H].
  - destruct err; [reflexivity|now elim H].
  - destruct err; [reflexivity|].
    destruct (host =? "")%string; [reflexivity|].
    unfold Trim1. rewrite (trimLeftByte_hyphens _ _ (sanitize_hyphens _ H 0%nat)).
    reflexivity.
Qed.

Lemma resolveHostname_falls_back_witness :
  resolveHostname "_._" None = "localhost".
Proof. apply resolveHostname_falls_back. right. reflexivity. Defined.
(* ================================================================== *)
(** * More on the protocol session                                     *)
(* ================================================================== *)

Lemma filter_okRcpts (l : list string) : filter isRcpt (okRcpts l) = okRcpts l.
Proof.
  unfold okRcpts. induction l as [|a l IH]; [reflexivity|].
  cbn [map filter isRcpt]. now rewrite IH.
Qed.

Lemma okRcpts_no (p : Cmd * option error -> bool) (l : list string) :
  (forall x, isRcpt x = true -> p x = false) -> existsb p (okRcpts l) = false.
Proof.
  intros H. induction l as [|a l IH]; [reflexivity|].
  cbn [okRcpts map existsb]. fold (okRcpts l). now rewrite IH, H.
Qed.

Section MoreSessionFacts.
Context {Net : Type} {peer : Peer Net}.

(** The recipients loop: every address is declared in order and accepted,
    or the loop stops at the first address the server rejects. *)
Lemma Internal_rcptEach_spec (to : list string) :
  forall (n : Net) (tr : Trace) (r : option error) (n' : Net) (tr' : Trace),
    Internal.rcptEach to (n, tr) = (r, (n', tr')) ->
    (r = None /\ tr' = (tr ++ okRcpts to)%list)
    \/ (exists pre bad post e,
          to = (pre ++ bad :: post)%list /\ r = Some e
          /\ tr' = (tr ++ okRcpts pre ++ [(Rcpt bad, Some e)])%list).
Proof.
  induction to as [|a to IH]; intros n tr r n' tr'.
  - cbn. intros [= <- _ <-]. left. now rewrite app_nil_r.
  - cbn [Internal.rcptEach]. unfold orReturn, sbind, sret, issue. cbn [fst snd].
    answer.
    + intros [= <- _ <-]. right. exists [], a, to, r0. repeat split.
    + intros E1. apply IH in E1.
      destruct E1 as [[-> ->]|(pre & bad & post & e & -> & -> & ->)].
      * left. split; [reflexivity|]. now rewrite <- app_assoc.
      * right. exists (a :: pre), bad, post, e. repeat split.
        now rewrite <- app_assoc.
Qed.

Lemma Part000_rcptEach_spec (op : Op) (to : list string) :
  forall (n : Net) (tr : Trace) (r : option error) (n' : Net) (tr' : Trace),
    Part000.rcptEach op to (n, tr) = (r, (n', tr')) ->
    (r = None /\ tr' = (tr ++ okRcpts to)%list)
    \/ (exists pre bad post e,
          to = (pre ++ bad :: post)%list /\ r = Some (Part000.wrap op e)
          /\ tr' = (tr ++ okRcpts pre ++ [(Rcpt bad, Some e)])%list).
Proof.
  induction to as [|a to IH]; intros n tr r n' tr'.
  - cbn. intros [= <- _ <-]. left. now rewrite app_nil_r.
  - cbn [Part000.rcptEach]. unfold orReturn, sbind, sret, issue. cbn [fst snd].
    answer.
    + intros [= <- _ <-]. right. exists [], a, to, r0. repeat split.
    + intros E1. apply IH in E1.
      destruct E1 as [[-> ->]|(pre & bad & post & e & -> & -> & ->)].
      * left. split; [reflexivity|]. now rewrite <- app_assoc.
      * right. exists (a :: pre), bad, post, e. repeat split.
        now rewrite <- app_assoc.
Qed.

(** Run the recipients loop met in the goal, with what it declared. *)
Ltac declared :=
  match goal with
  | |- context [Internal.rcptEach ?to (?n, ?tr)] =>
      let r := fresh "r" in
      let n' := fresh "n" in
      let tr' := fresh "tr" in
      let E := fresh "E" in
      destruct (Internal.rcptEach to (n, tr)) as [r [n' tr']] eqn:E;
      apply Internal_rcptEach_spec in E;
      destruct E as [[-> ->]|(?pre & ?bad & ?post & ?e & ?Hto & -> & ->)];
      cbv beta iota; cbn [fst snd]
  | |- context [Part000.rcptEach ?op ?to (?n, ?tr)] =>
      let r := fresh "r" in
      let n' := fresh "n" in
      let tr' := fresh "tr" in
      let E := fresh "E" in
      destruct (Part000.rcptEach op to (n, tr)) as [r [n' tr']] eqn:E;
      apply Part000_rcptEach_spec in E;
      destruct E as [[-> ->]|(?pre & ?bad & ?post & ?e & ?Hto & -> & ->)];
      cbv beta iota; cbn [fst snd]
  end.

Ltac open_session :=
  unfold Internal.sendWithClient, Part000.sendWithClient,
    defer, orReturn, sbind, sret, issue, Extension;
  cbn [fst snd].

Ltac walk := repeat first [answer | declared].

Ltac no_close :=
  repeat first
    [ rewrite existsb_app
    | rewrite (okRcpts_no isClose) by (intros [[] ?]; cbn; congruence)
    | progress cbn [existsb isClose orb app] ];
  try reflexivity.

(** Whatever happens in a session, the connection is released exactly once
    and last: by closing the client when it could be created, by closing the
    raw connection when it could not. *)
Theorem session_always_closes
    (host : string) (auth : option PlainAuth) (from : string)
    (to : list string) (msg : string) (alreadyTLS : bool) (n : Net) :
  let closing :=
    match fst (respond n (NewClient host)) with
    | Some _ => ConnClose
    | None => ClientClose
    end in
  (let run := Internal.sendWithClient host auth from to msg alreadyTLS (n, []) in
   exists pre x, snd (snd run) = (pre ++ [x])%list
     /\ fst x = closing /\ existsb isClose pre = false)
  /\
  (let run := Part000.sendWithClient host auth from to msg alreadyTLS (n, []) in
   exists pre x, snd (snd run) = (pre ++ [x])%list
     /\ fst x = closing /\ existsb isClose pre = false).
Proof.
  cbv zeta. split; open_session;
    destruct alreadyTLS, auth; cbn [negb]; walk;
    (do 2 eexists; split; [reflexivity|]); cbn [fst]; (split; [reflexivity|]);
    no_close.
Qed.

Ltac only_rcpts :=
  repeat first
    [ rewrite filter_app
    | rewrite filter_okRcpts
    | progress cbn [filter isRcpt app] ];
  rewrite ?app_nil_r.

Ltac no_payload :=
  repeat first
    [ rewrite existsb_app
    | rewrite (okRcpts_no isPayload) by (intros [[] ?]; cbn; congruence)
    | progress cbn [existsb isPayload orb app] ];
  try reflexivity.

(** In a session the recipients are declared in the order given. Either
    the session fails before any is declared, or each one is declared and
    accepted, or the declarations stop at the first one the server rejects:
    the session then returns that rejection and the data section is never
    opened. *)
Theorem recipients_declared_in_order
    (host : string) (auth : option PlainAuth) (from : string)
    (to : list string) (msg : string) (alreadyTLS : bool) (n : Net) :
  (let run := Internal.sendWithClient host auth from to msg alreadyTLS (n, []) in
   let rcpts := filter isRcpt (snd (snd run)) in
   (rcpts = [] /\ fst run <> None)
   \/ rcpts = okRcpts to
   \/ exists pre bad post e,
        to = (pre ++ bad :: post)%list
        /\ rcpts = (okRcpts pre ++ [(Rcpt bad, Some e)])%list
        /\ fst run = Some e
        /\ existsb isPayload (snd (snd run)) = false)
  /\
  (let run := Part000.sendWithClient host auth from to msg alreadyTLS (n, []) in
   let rcpts := filter isRcpt (snd (snd run)) in
   (rcpts = [] /\ fst run <> None)
   \/ rcpts = okRcpts to
   \/ exists pre bad post e,
        to = (pre ++ bad :: post)%list
        /\ rcpts = (okRcpts pre ++ [(Rcpt bad, Some e)])%list
        /\ fst run = Some (Part000.wrap "email.sendWithClient" e)
        /\ existsb isPayload (snd (snd run)) = false).
Proof.
  cbv zeta. split; open_session;
    destruct alreadyTLS, auth; cbn [negb]; walk; only_rcpts;
    first
      [ left; split; [reflexivity|discriminate]
      | right; left; reflexivity
      | right; right; do 4 eexists;
        split; [eassumption|]; split; [reflexivity|]; split; [reflexivity|];
        no_payload ].
Qed.

Lemma carries_okRcpts host auth from to msg name (l : list string) :
  incl l to ->
  Forall (fun x => carries host auth from to msg name (fst x)) (okRcpts l).
Proof.
  intros H. unfold okRcpts. apply Forall_map. apply Forall_forall.
  intros a Ha. cbn. now apply H.
Qed.

Ltac all_carry :=
  repeat first
    [ apply Forall_nil
    | apply Forall_app; split
    | apply Forall_cons; [cbn [carries fst]; try reflexivity; auto|]
    | apply carries_okRcpts ];
  try (subst; auto using incl_refl, incl_appl, in_or_app, in_eq; fail).

(** A session only ever sends what it was called with: the host to the
    client and to the upgrade, the sanitized local name to every greeting,
    the given credentials to AUTH (and no AUTH at all without credentials),
    the given sender to MAIL, members of the recipient list to RCPT and the
    given payload to the data section. *)
Theorem session_sends_its_arguments
    (host : string) (auth : option PlainAuth) (from : string)
    (to : list string) (msg : string) (alreadyTLS : bool) (n : Net) :
  Forall (fun x => carries host auth from to msg hostname (fst x))
    (snd (snd (Internal.sendWithClient host auth from to msg alreadyTLS (n, []))))
  /\ Forall (fun x => carries host auth from to msg hostname (fst x))
       (snd (snd (Part000.sendWithClient host auth from to msg alreadyTLS (n, [])))).
Proof.
  split; open_session; destruct alreadyTLS, auth; cbn [negb]; walk; all_carry.
  all: subst to; try (intros a Ha; apply in_or_app; now left);
       try (apply in_or_app; right; apply in_eq).
Qed.

Lemma Internal_rcptEach_accepted (to : list string) :
  (forall n c, fst (respond n c) = None) ->
  forall (n : Net) (tr : Trace) (r : option error) (n' : Net) (tr' : Trace),
    Internal.rcptEach to (n, tr) = (r, (n', tr')) ->
    r = None /\ tr' = (tr ++ okRcpts to)%list.
Proof.
  intros H. induction to as [|a to IH]; intros n tr r n' tr'.
  - cbn. intros [= <- _ <-]. now rewrite app_nil_r.
  - cbn [Internal.rcptEach]. unfold orReturn, sbind, sret, issue. cbn [fst snd].
    specialize (H n (Rcpt a)). destruct (respond n (Rcpt a)) as [r0 n1].
    cbn in H. subst r0. cbv beta iota. cbn [fst snd].
    intros E. apply IH in E. destruct E as [-> ->].
    split; [reflexivity|]. now rewrite <- app_assoc.
Qed.

Lemma Part000_rcptEach_accepted (op : Op) (to : list string) :
  (forall n c, fst (respond n c) = None) ->
  forall (n : Net) (tr : Trace) (r : option error) (n' : Net) (tr' : Trace),
    Part000.rcptEach op to (n, tr) = (r, (n', tr')) ->
    r = None /\ tr' = (tr ++ okRcpts to)%list.
Proof.
  intros H. induction to as [|a to IH]; intros n tr r n' tr'.
  - cbn. intros [= <- _ <-]. now rewrite app_nil_r.
  - cbn [Part000.rcptEach]. unfold orReturn, sbind, sret, issue. cbn [fst snd].
    specialize (H n (Rcpt a)). destruct (respond n (Rcpt a)) as [r0 n1].
    cbn in H. subst r0. cbv beta iota. cbn [fst snd].
    intros E. apply IH in E. destruct E as [-> ->].
    split; [reflexivity|]. now rewrite <- app_assoc.
Qed.

(** One step of a session in which the peer accepts everything. *)
Ltac accept H :=
  match goal with
  | |- context [respond ?n ?c] =>
      let r := fresh "r" in
      let n' := fresh "n" in
      let E := fresh "E" in
      pose proof (H n c) as E;
      destruct (respond n c) as [r n'];
      cbn [fst] in E; subst r; cbv beta iota; cbn [fst snd]
  | |- context [Internal.rcptEach ?to (?n, ?tr)] =>
      let r := fresh "r" in
      let n' := fresh "n" in
      let tr' := fresh "tr" in
      let E := fresh "E" in
      destruct (Internal.rcptEach to (n, tr)) as [r [n' tr']] eqn:E;
      apply (Internal_rcptEach_accepted to H) in E;
      destruct E as [-> ->]; cbv beta iota; cbn [fst snd]
  | |- context [Part000.rcptEach ?op ?to (?n, ?tr)] =>
      let r := fresh "r" in
      let n' := fresh "n" in
      let tr' := fresh "tr" in
      let E := fresh "E" in
      destruct (Part000.rcptEach op to (n, tr)) as [r [n' tr']] eqn:E;
      apply (Part000_rcptEach_accepted op to H) in E;
      destruct E as [-> ->]; cbv beta iota; cbn [fst snd]
  end.

(** When the address splits and the peer accepts every command, a
    delivery returns nil after exactly one session over implicit TLS: the
    dial, the client, the greeting, AUTH if there are credentials, the
    sender, every recipient in order, the payload, QUIT and the close. The
    plain dial of the fallback is never made. *)
Theorem sendMailWithTLS_when_all_accepted
    (timeout : Z) (addr host port : string) (auth : option PlainAuth)
    (from : string) (to : list string) (msg : string) (n : Net) :
  net.SplitHostPort addr = inl (host, port) ->
  (forall n c, fst (respond n c) = None) ->
  let expected :=
    map (fun c => (c, None))
      (delivery timeout addr host hostname auth from to msg) in
  (let run := Internal.sendMailWithTLS timeout addr auth from to msg (n, []) in
   fst run = None /\ snd (snd run) = expected)
  /\
  (let run := Part000.sendMailWithTLS timeout addr auth from to msg (n, []) in
   fst run = None /\ snd (snd run) = expected).
Proof.
  intros Hsplit H. cbv zeta.
  unfold Internal.sendMailWithTLS, Part000.sendMailWithTLS,
    Internal.tryImplicitTLS, Part000.tryImplicitTLS.
  rewrite Hsplit. open_session. cbn [negb].
  assert (Hmap : forall l, map (fun c : Cmd => (c, @None error)) (map Rcpt l)
                           = okRcpts l).
  { intros l. unfold okRcpts. now rewrite map_map. }
  split; destruct auth; repeat accept H; (split; [reflexivity|]);
    unfold delivery, authCmd; rewrite !map_app, Hmap; cbn [map app];
    repeat rewrite <- app_assoc; reflexivity.
Qed.


End MoreSessionFacts.

Lemma sendMailWithTLS_when_all_accepted_witness :
  let run :=
    Internal.sendMailWithTLS (peer := agreeable) (10 * Second)
      "smtp.example.org:465" None "me@example.org" ["you@example.org"]
      "hi" (tt, []) in
  fst run = None
  /\ map fst (snd (snd run))
     = [DialTLS (10 * Second) "smtp.example.org:465" "smtp.example.org";
        NewClient "smtp.example.org"; Hello "localhost";
        Mail "me@example.org"; Rcpt "you@example.org";
        Data; Write "hi"; DataClose; Quit; ClientClose].
Proof.
  destruct (sendMailWithTLS_when_all_accepted (peer := agreeable)
              (10 * Second) "smtp.example.org:465" "smtp.example.org" "465"
              None "me@example.org" ["you@example.org"] "hi" tt
              eq_refl (fun _ _ => eq_refl)) as [[H1 H2] _].
  split; [exact H1|]. cbv zeta. rewrite H2. reflexivity.
Defined.

(* ================================================================== *)
(** * More on the lifecycle guard and the orchestrator                 *)
(* ================================================================== *)

(** The dial timeout installed by the setup always lies between one second
    and one minute: ten seconds when the configured value is not positive,
    the configured number of seconds from 1 to 60, and one minute above
    that. *)
Theorem dialTimeoutOf_bounds (cfg : types.EmailConfig) :
  Second <= dialTimeoutOf cfg <= 60 * Second
  /\ (types.SmtpDialTimeoutSec cfg <= 0 -> dialTimeoutOf cfg = 10 * Second)
  /\ (1 <= types.SmtpDialTimeoutSec cfg <= 60 ->
      dialTimeoutOf cfg = types.SmtpDialTimeoutSec cfg * Second)
  /\ (60 <= types.SmtpDialTimeoutSec cfg <= 9223372036 ->
      dialTimeoutOf cfg = 60 * Second).
Proof.
  unfold dialTimeoutOf, Second.
  set (sec := types.SmtpDialTimeoutSec cfg).
  assert (W : 1 <= sec <= 9223372036 -> wrap64 (sec * 1000000000) = sec * 1000000000).
  { intros H. unfold wrap64.
    rewrite Z.mod_small; lia. }
  repeat split.
  - destruct (sec >? 0); [|lia].
    destruct (wrap64 (sec * 1000000000) <? 1000000000) eqn:A.
    + cbv zeta. destruct (1000000000 >? 60 * 1000000000) eqn:B; lia.
    + cbv zeta. apply Z.ltb_ge in A.
      destruct (wrap64 (sec * 1000000000) >? 60 * 1000000000); lia.
  - destruct (sec >? 0); [|lia].
    destruct (wrap64 (sec * 1000000000) <? 1000000000) eqn:A.
    + cbv zeta. destruct (1000000000 >? 60 * 1000000000) eqn:B; lia.
    + cbv zeta.
      destruct (wrap64 (sec * 1000000000) >? 60 * 1000000000) eqn:B; [lia|].
      rewrite Z.gtb_ltb in B. apply Z.ltb_ge in B. lia.
  - intros H. destruct (sec >? 0) eqn:A; [|reflexivity].
    rewrite Z.gtb_ltb in A. apply Z.ltb_lt in A. lia.
  - intros H. rewrite W by lia.
    destruct (sec >? 0) eqn:A;
      [|rewrite Z.gtb_ltb in A; apply Z.ltb_ge in A; lia].
    destruct (sec * 1000000000 <? 1000000000) eqn:B;
      [apply Z.ltb_lt in B; lia|].
    cbv zeta.
    destruct (sec * 1000000000 >? 60 * 1000000000) eqn:C; [|reflexivity].
    rewrite Z.gtb_ltb in C. apply Z.ltb_lt in C. lia.
  - intros H. rewrite W by lia.
    destruct (sec >? 0) eqn:A;
      [|rewrite Z.gtb_ltb in A; apply Z.ltb_ge in A; lia].
    destruct (sec * 1000000000 <? 1000000000) eqn:B;
      [apply Z.ltb_lt in B; lia|].
    cbv zeta.
    destruct (sec * 1000000000 >? 60 * 1000000000) eqn:C; [reflexivity|].
    rewrite Z.gtb_ltb in C. apply Z.ltb_ge in C. lia.
Qed.



Section MoreLifecycle.
Context {T : Type} {tr : Transport T}.

Ltac run_init :=
  unfold Initialize, ServiceGo.Initialize, bind, load, store, lift, ret,
    setDialTimeout, initOnce_Do;
  cbn [service smtpDialTimeout world events].

(** The setup neither contacts the transport nor notifies the logger, in
    either revision; the guard of service.go moreover never assigns the
    configuration or the dial timeout. *)
Theorem Initialize_leaves_the_transport_alone (m : Machine T) :
  (world (snd (Initialize m)) = world m
   /\ events (snd (Initialize m)) = events m)
  /\ (world (snd (ServiceGo.Initialize m)) = world m
      /\ events (snd (ServiceGo.Initialize m)) = events m
      /\ smtpDialTimeout (snd (ServiceGo.Initialize m)) = smtpDialTimeout m
      /\ Config (service (snd (ServiceGo.Initialize m))) = Config (service m)).
Proof.
  split; run_init.
  - destruct (isInitialized (service m)); [split; reflexivity|].
    destruct (initOnce (service m)); [split; reflexivity|].
    destruct (LoggerService (service m)); [|split; reflexivity].
    destruct (ConfigService (service m)) as [[cfg|err]|];
      try (split; reflexivity).
    cbn [service smtpDialTimeout world events].
    destruct (validateConfig _ _) as [[err|]|]; split; reflexivity.
  - destruct (isInitialized (service m)); [repeat split|].
    destruct (initOnce (service m)); [repeat split|].
    destruct (LoggerService (service m)); [|repeat split].
    destruct (Config (service m)) as [cfg|] eqn:HC,
             (ConfigService (service m)) as [cs|];
      try destruct (validateConfig _ _) as [[err|]|];
      cbn; rewrite ?HC; repeat split.
Qed.

(** The guard of service.go accepts a service whose provider is wired but
    whose configuration was never assigned, and then dereferences the nil
    configuration in the validator: the call panics, and the once-guard is
    spent all the same. *)
Theorem ServiceGo_Initialize_panics_without_config (m : Machine T) :
  isInitialized (service m) = false ->
  initOnce (service m) = false ->
  LoggerService (service m) <> None ->
  ConfigService (service m) <> None ->
  Config (service m) = None ->
  fst (ServiceGo.Initialize m) = Panics
  /\ initOnce (service (snd (ServiceGo.Initialize m))) = true
  /\ isInitialized (service (snd (ServiceGo.Initialize m))) = false.
Proof.
  intros HI HO HL HS HC. run_init. rewrite HI, HO.
  destruct (LoggerService (service m)); [|congruence].
  rewrite HC. destruct (ConfigService (service m)); [|congruence].
  unfold validateConfig. rewrite HC. cbn. repeat split. exact HI.
Qed.

(** What the setup of the main file does with the provider's configuration
    on a fresh service: a configuration the validator accepts is stored,
    the dial timeout is derived from it and the service is initialized; one
    the validator rejects is stored with [Enabled] cleared, the validator's
    error is returned and the service stays uninitialized. Either way a
    configuration assigned by hand beforehand is replaced. *)
Theorem Initialize_installs_the_provider_config
    (m : Machine T) (cfg : types.EmailConfig) :
  isInitialized (service m) = false ->
  initOnce (service m) = false ->
  LoggerService (service m) <> None ->
  ConfigService (service m) = Some (inl cfg) ->
  let op : Op := "email.Service.Initialize" in
  let run := Initialize m in
  let s1 := service (snd run) in
  initOnce s1 = true
  /\ (validateConfig (serviceOf cfg) op = Returns None ->
      fst run = Returns None /\ Config s1 = Some cfg
      /\ isInitialized s1 = true
      /\ smtpDialTimeout (snd run) = dialTimeoutOf cfg)
  /\ (forall e, validateConfig (serviceOf cfg) op = Returns (Some e) ->
      fst run = Returns (Some e)
      /\ Config s1 = Some (types.withEnabled false cfg)
      /\ isInitialized s1 = false
      /\ smtpDialTimeout (snd run) = smtpDialTimeout m).
Proof.
  intros HI HO HL HS. cbv zeta. run_init. rewrite HI, HO.
  destruct (LoggerService (service m)); [|congruence].
  rewrite HS. cbn [service smtpDialTimeout world events].
  change (validateConfig (setConfig (Some cfg) (service m))
            "email.Service.Initialize")
    with (validateConfig (serviceOf cfg) "email.Service.Initialize").
  destruct (validateConfig (serviceOf cfg) "email.Service.Initialize")
    as [[err|]|]; cbn; (split; [reflexivity|]); split;
    try discriminate; try (intros e [= <-]); try intros _; repeat split.
  exact HI.
Qed.



(** After a setup that returned an error a delivery is refused as not
    initialized and nothing is sent or logged; a second call of the setup
    does not change that. *)
Theorem Send_after_failed_Initialize
    (email : MsgDef) (m m1 : Machine T) (e : error) :
  Initialize m = (Returns (Some e), m1) ->
  let refused :=
    Returns (Some (errors.Msg errMsgNotInitialized
                     (errors.New "email.Service.Send"))) in
  Send email m1 = (refused, m1)
  /\ Send email (snd (Initialize m1)) = (refused, m1).
Proof.
  intros E. cbv zeta. apply Initialize_error_spends in E. destruct E as [HI HO].
  destruct (Initialize_spent m1 HI HO) as [-> _]. cbn [snd].
  unfold Send, bind, load, ret. rewrite HI. cbn. split; reflexivity.
Qed.

End MoreLifecycle.

Lemma ServiceGo_Initialize_panics_without_config_witness :
  fst (ServiceGo.Initialize (machineOf (T := nat) (wired cfgRetry) 0%nat))
  = Panics.
Proof.
  apply (ServiceGo_Initialize_panics_without_config
           (machineOf (T := nat) (wired cfgRetry) 0%nat));
    first [reflexivity | discriminate].
Defined.

Lemma Initialize_installs_the_provider_config_witness :
  let run := Initialize (machineOf (T := nat) (wired cfgNoHost) 0%nat) in
  fst run
  = Returns (Some (errors.Msg "email host cannot be empty"
                     (errors.New "email.Service.Initialize")))
  /\ Config (service (snd run)) = Some (types.withEnabled false cfgNoHost).
Proof.
  destruct (Initialize_installs_the_provider_config
              (machineOf (T := nat) (wired cfgNoHost) 0%nat) cfgNoHost
              eq_refl eq_refl ltac:(discriminate) eq_refl) as (_ & _ & H).
  destruct (H _ eq_refl) as (H1 & H2 & _). split; assumption.
Defined.


Lemma Send_after_failed_Initialize_witness :
  fst (Send (tr := alwaysDown) hello
         (snd (Initialize (machineOf withoutLogger 0%nat))))
  = Returns (Some (errors.Msg errMsgNotInitialized
                     (errors.New "email.Service.Send"))).
Proof.
  destruct (Send_after_failed_Initialize (tr := alwaysDown) hello
              (machineOf withoutLogger 0%nat)
              (snd (Initialize (machineOf withoutLogger 0%nat)))
              _ eq_refl) as [H _].
  now rewrite H.
Defined.
(* ================================================================== *)
(** * More on the validator                                            *)
(* ================================================================== *)

Lemma IndexByte_upper (s : string) (c : ascii) : strings.IndexByte s c < len s.
Proof.
  induction s as [|a s IH]; [cbn; lia|].
  cbn [strings.IndexByte]. rewrite len_String.
  pose proof (len_nonneg s).
  destruct (Ascii.eqb a c); [lia|].
  destruct (strings.IndexByte s c <? 0); lia.
Qed.

Lemma IndexByte_app_found (a b : string) (c : ascii) :
  0 <= strings.IndexByte a c ->
  strings.IndexByte (a ++ b) c = strings.IndexByte a c.
Proof.
  induction a as [|x a IH]; [cbn; lia|].
  cbn [String.append strings.IndexByte].
  destruct (Ascii.eqb x c); [reflexivity|].
  destruct (strings.IndexByte a c <? 0) eqn:E; [lia|].
  pose proof E as E'. apply Z.ltb_ge in E'. intros _.
  rewrite (IH E'), E. reflexivity.
Qed.

Lemma IndexByte_cons_found (x c : ascii) (b : string) :
  Ascii.eqb x c = false -> 0 <= strings.IndexByte b c ->
  strings.IndexByte (String x b) c = strings.IndexByte b c + 1.
Proof.
  intros H Hb. cbn [strings.IndexByte]. rewrite H.
  destruct (strings.IndexByte b c <? 0) eqn:E; [apply Z.ltb_lt in E; lia|].
  reflexivity.
Qed.

(** Joining a host that has a colon and a square bracket with a port gives
    an address that does not split. *)
Lemma SplitHostPort_bracketed_literal (host : string) (port : Z) :
  0 <= strings.IndexByte host net.colon ->
  0 <= strings.IndexByte host net.lbrack
  \/ 0 <= strings.IndexByte host net.rbrack ->
  0 < port ->
  exists err,
    net.SplitHostPort (net.JoinHostPort host (strconv.Itoa port)) = inr err.
Proof.
  intros Hc Hb Hp.
  pose proof (Itoa_digits port net.colon Hp eq_refl) as Pc.
  pose proof (len_nonneg host) as Hn.
  set (P := strconv.Itoa port) in *.
  pose proof (len_nonneg P) as HnP.
  unfold net.JoinHostPort.
  replace (0 <=? strings.IndexByte host net.colon) with true
    by (symmetry; now apply Z.leb_le).
  set (hp := "[" ++ host ++ "]:" ++ P).
  assert (F1 : hp = ("[" ++ host ++ "]") ++ String ":" P)
    by (unfold hp; cbn [String.append]; now rewrite append_assoc).
  assert (F2 : hp = ("[" ++ host) ++ String "]" (String ":" P)) by reflexivity.
  assert (F3 : hp = String "[" (host ++ String "]" (String ":" P)))
    by reflexivity.
  assert (L1 : len ("[" ++ host ++ "]") = len host + 2)
    by (cbn [String.append]; rewrite len_String, len_append;
        change (len "]") with 1; lia).
  assert (L2 : len ("[" ++ host) = len host + 1)
    by (cbn [String.append]; rewrite len_String; lia).
  assert (L3 : len hp = len host + 3 + len P)
    by (rewrite F1, len_append, L1, len_String; lia).
  assert (Hi : strings.LastIndexByte hp net.colon = len host + 2)
    by (rewrite F1, LastIndexByte_at, L1; [reflexivity | rewrite Pc; lia]).
  unfold net.SplitHostPort. rewrite Hi.
  replace (byteAt hp 0) with (Some net.lbrack) by reflexivity.
  rewrite Ascii.eqb_refl, L3.
  destruct (Z_lt_ge_dec (strings.IndexByte host net.rbrack) 0) as [Hr|Hr].
  - (* the first closing bracket is the one the join added *)
    destruct Hb as [Hl|Hr']; [|lia].
    assert (He : strings.IndexByte hp net.rbrack = len host + 1).
    { rewrite F2, IndexByte_at, L2; [reflexivity|].
      cbn [String.append].
      rewrite IndexByte_absent_cons; [lia | reflexivity | assumption]. }
    assert (S1 : sliceFrom hp 1 = host ++ String "]" (String ":" P))
      by (apply (sliceFrom_after "" _ "[")).
    rewrite He. ztest. cbv beta iota zeta.
    rewrite S1, (IndexByte_app_found _ _ _ Hl).
    replace (0 <=? strings.IndexByte host net.lbrack) with true
      by (symmetry; now apply Z.leb_le).
    eexists. reflexivity.
  - (* the host has a closing bracket of its own *)
    assert (He : strings.IndexByte hp net.rbrack
                 = strings.IndexByte host net.rbrack + 1).
    { rewrite F3, IndexByte_cons_found.
      - now rewrite IndexByte_app_found by lia.
      - reflexivity.
      - rewrite IndexByte_app_found; lia. }
    pose proof (IndexByte_upper host net.rbrack) as Hu.
    rewrite He. ztest. cbv beta iota zeta.
    destruct (match byteAt hp (strings.IndexByte host net.rbrack + 1 + 1) with
              | Some c => Ascii.eqb c net.colon
              | None => false
              end); eexists; reflexivity.
Qed.

(** A host written with a colon and a square bracket, as a bracketed
    literal IPv6 address is, never validates: joined with the port it is
    bracketed a second time and the address no longer splits. *)
Theorem validateConfig_rejects_bracketed_literal
    (s : Service) (cfg : types.EmailConfig) (op : Op) :
  Config s = Some cfg ->
  let host := strings.TrimSpace (types.Host cfg) in
  strings.Contains host " " = false ->
  1 <= types.Port cfg <= 65535 ->
  0 <= strings.IndexByte host net.colon ->
  0 <= strings.IndexByte host net.lbrack
  \/ 0 <= strings.IndexByte host net.rbrack ->
  exists err,
    validateConfig s op
    = Returns (Some (errors.Msg "invalid host or port for email config"
                       (errors.Err err (errors.New op)))).
Proof.
  intros HC host Hs Hp Hc Hb. unfold validateConfig. rewrite HC. cbv zeta.
  fold host.
  assert (Hne : host <> "") by (intros E; rewrite E in Hc; cbn in Hc; lia).
  rewrite (eqb_empty_false _ Hne), Hs, (port_test_ok _ Hp).
  destruct (SplitHostPort_bracketed_literal host (types.Port cfg) Hc Hb
              ltac:(lia)) as [err ->].
  now exists err.
Qed.

Lemma validateConfig_rejects_bracketed_literal_witness :
  exists err,
    validateConfig (serviceOf cfgBracketed) "op"
    = Returns (Some (errors.Msg "invalid host or port for email config"
                       (errors.Err err (errors.New "op")))).
Proof.
  apply (validateConfig_rejects_bracketed_literal (serviceOf cfgBracketed)
           cfgBracketed "op" eq_refl).
  - reflexivity.
  - vm_compute. split; discriminate.
  - vm_compute. discriminate.
  - left. vm_compute. discriminate.
Defined.

(** What acceptance guarantees: a configuration is present, its trimmed
    host is neither empty nor contains a space, its port lies in 1..65535,
    the address a delivery dials splits into a host and a port, the trimmed
    sender is not empty and the trimmed credentials are both present or
    both absent. *)
Theorem validateConfig_accepts_only_sound (s : Service) (op : Op) :
  validateConfig s op = Returns None ->
  exists cfg,
    Config s = Some cfg
    /\ hostOf cfg <> ""
    /\ strings.Contains (hostOf cfg) " " = false
    /\ 1 <= types.Port cfg <= 65535
    /\ (exists hp, net.SplitHostPort (addrOf cfg) = inl hp)
    /\ strings.TrimSpace (types.From cfg) <> ""
    /\ (strings.TrimSpace (types.Username cfg) = ""
        <-> strings.TrimSpace (types.Password cfg) = "").
Proof.
  unfold validateConfig, addrOf, hostOf.
  destruct (Config s) as [cfg|]; [|discriminate]. cbv zeta.
  destruct (String.eqb_spec (strings.TrimSpace (types.Host cfg)) "") as [H|H];
    [discriminate|].
  destruct (strings.Contains (strings.TrimSpace (types.Host cfg)) " ") eqn:Hs;
    [discriminate|].
  destruct ((types.Port cfg <=? 0) || (types.Port cfg >? 65535)) eqn:Hp;
    [discriminate|].
  destruct (net.SplitHostPort _) as [hp|err] eqn:Hj; [|discriminate].
  destruct (String.eqb_spec (strings.TrimSpace (types.From cfg)) "") as [F|F];
    [discriminate|].
  destruct (String.eqb_spec (strings.TrimSpace (types.Username cfg)) "") as [U|U];
    destruct (String.eqb_spec (strings.TrimSpace (types.Password cfg)) "") as [P|P];
    cbn [andb negb]; try discriminate; intros _; exists cfg;
    (split; [reflexivity|]); (split; [assumption|]); (split; [exact Hs|]);
    (split; [|split; [now exists hp|split; [assumption|tauto]]]);
    apply orb_false_iff in Hp; destruct Hp as [P1 P2];
    apply Z.leb_gt in P1; rewrite Z.gtb_ltb in P2; apply Z.ltb_ge in P2; lia.
Qed.

Lemma validateConfig_accepts_only_sound_witness :
  exists hp, net.SplitHostPort (addrOf cfgIPv6) = inl hp.
Proof.
  destruct (validateConfig_accepts_only_sound (serviceOf cfgIPv6) "op" eq_refl)
    as (cfg & HC & _ & _ & _ & H & _).
  injection HC as <-. exact H.
Defined.
(* ================================================================== *)
(** * More on the composer                                             *)
(* ================================================================== *)

Section MoreComposerFacts.
Context {Qso : Type}.

(** The composer returns an error together with the zero document, never
    with a partial one, and the error is one of three: no recipient, no QSO,
    or the compositor's failure wrapped. A document returned without error
    has at least one recipient, the ones given when any were given. *)
Theorem Build_error_returns_zero_document
    (s : Service) (env : ComposeEnv Qso) (from subject msg : string)
    (to : list string) (slice : list Qso) (doc : MsgDef) (r : option error) :
  BuildEmailWithADIFAttachment s env from subject msg to slice
  = Returns (doc, r) ->
  let op : Op := "email.Service.BuildEmailWithADIFAttachment" in
  match r with
  | Some e =>
      doc = MsgDef_zero
      /\ (e = errors.Msg "email TO address cannot be empty" (errors.New op)
          \/ (slice = []
              /\ e = errors.Msg "QSO slice cannot be empty" (errors.New op))
          \/ exists err,
               ComposeToAdifString env slice = inr err
               /\ e = errors.Msg "failed to compose ADIF string"
                        (errors.Err err (errors.New op)))
  | None =>
      To doc <> [] /\ (to <> [] -> To doc = to) /\ slice <> []
  end.
Proof.
  unfold BuildEmailWithADIFAttachment, obind, configField. cbv zeta.
  destruct (strings.TrimSpace from =? "")%string;
    destruct (Config s) as [cfg|];
    destruct to as [|t0 to]; try discriminate;
    try (destruct (splitAndTrim (types.To cfg)) as [|t1 tos] eqn:ET);
    try (intros [= <- <-]; split; [reflexivity|left; reflexivity]);
    destruct (strings.TrimSpace subject =? "")%string; try discriminate;
    destruct (strings.TrimSpace msg =? "")%string; try discriminate;
    (destruct slice as [|q slice];
     [intros [= <- <-]; split; [reflexivity|right; left; split; reflexivity]|]);
    (destruct (ComposeToAdifString env (q :: slice)) as [adif|err] eqn:EC;
     [intros [= <- <-]; cbn [To]; repeat split; congruence
     |intros [= <- <-]; split; [reflexivity|right; right; now exists err]]).
Qed.

(** When the sender, the subject and the body are given and not blank and
    the recipient list is not empty, the composer does not read the
    service: it gives the same result on every service, one without a
    configuration included. *)
Theorem Build_explicit_arguments_ignore_config
    (s s' : Service) (env : ComposeEnv Qso) (from subject msg : string)
    (to : list string) (slice : list Qso) :
  strings.TrimSpace from <> "" ->
  to <> [] ->
  strings.TrimSpace subject <> "" ->
  strings.TrimSpace msg <> "" ->
  BuildEmailWithADIFAttachment s env from subject msg to slice
  = BuildEmailWithADIFAttachment s' env from subject msg to slice
  /\ BuildEmailWithADIFAttachment s env from subject msg to slice <> Panics.
Proof.
  intros Hf Ht Hs Hm.
  unfold BuildEmailWithADIFAttachment, obind. cbv zeta.
  rewrite (eqb_empty_false _ Hf), (eqb_empty_false _ Hs),
    (eqb_empty_false _ Hm).
  destruct to as [|t0 to]; [congruence|]. split; [reflexivity|].
  destruct slice as [|q slice]; [discriminate|].
  destruct (ComposeToAdifString env (q :: slice)); discriminate.
Qed.

(** On a service without a configuration the composer panics exactly when
    it has to fall back on one: when the sender, the subject or the body
    is blank or no recipient is given. *)
Theorem Build_panics_on_nil_config
    (s : Service) (env : ComposeEnv Qso) (from subject msg : string)
    (to : list string) (slice : list Qso) :
  Config s = None ->
  BuildEmailWithADIFAttachment s env from subject msg to slice = Panics
  <-> (strings.TrimSpace from = "" \/ to = []
       \/ strings.TrimSpace subject = "" \/ strings.TrimSpace msg = "").
Proof.
  intros HC. unfold BuildEmailWithADIFAttachment, obind, configField.
  cbv zeta. rewrite HC.
  destruct (String.eqb_spec (strings.TrimSpace from) "") as [F|F];
    [split; auto|].
  destruct to as [|t0 to]; [split; auto|].
  destruct (String.eqb_spec (strings.TrimSpace subject) "") as [S|S];
    [split; auto|].
  destruct (String.eqb_spec (strings.TrimSpace msg) "") as [B|B];
    [split; auto|].
  split.
  - destruct slice as [|q slice]; [discriminate|].
    destruct (ComposeToAdifString env (q :: slice)); discriminate.
  - intros [H|[H|[H|H]]]; congruence.
Qed.

End MoreComposerFacts.

Lemma Build_error_returns_zero_document_witness :
  match BuildEmailWithADIFAttachment unwired envBroken "me@example.org" "s"
          "b" ["you@example.org"] [tt] with
  | Returns (doc, Some _) => doc = MsgDef_zero
  | _ => False
  end.
Proof.
  exact (proj1 (Build_error_returns_zero_document unwired envBroken
                  "me@example.org" "s" "b" ["you@example.org"] [tt]
                  MsgDef_zero
                  (Some (errors.Msg "failed to compose ADIF string"
                           (errors.Err (Errorf "bad record")
                              (errors.New
                                 "email.Service.BuildEmailWithADIFAttachment"))))
                  eq_refl)).
Defined.

Lemma Build_explicit_arguments_ignore_config_witness :
  BuildEmailWithADIFAttachment unwired (envWith (fun h => h))
    "me@example.org" "s" "b" ["you@example.org"] [tt]
  = BuildEmailWithADIFAttachment (serviceOf cfgCompose) (envWith (fun h => h))
      "me@example.org" "s" "b" ["you@example.org"] [tt].
Proof.
  apply (Build_explicit_arguments_ignore_config unwired (serviceOf cfgCompose));
    discriminate.
Defined.

Lemma Build_panics_on_nil_config_witness :
  BuildEmailWithADIFAttachment unwired (envWith (fun h => h))
    "me@example.org" "" "b" ["you@example.org"] [tt]
  = Panics.
Proof.
  apply (Build_panics_on_nil_config unwired (envWith (fun h => h))
           "me@example.org" "" "b" ["you@example.org"] [tt] eq_refl).
  right. right. left. reflexivity.
Defined.

Lemma substring_zero (n : nat) (s : string) : substring n 0 s = "".
Proof.
  revert n. induction s as [|c s IH]; intros [|n]; try reflexivity. apply IH.
Qed.

Lemma substring_length (s : string) :
  forall n m, (n + m <= String.length s)%nat ->
    String.length (substring n m s) = m.
Proof.
  induction s as [|c s IH]; intros [|n] [|m] H; cbn in *; try lia;
    try reflexivity.
  - now rewrite (IH 0%nat m) by lia.
  - rewrite substring_zero. reflexivity.
  - apply IH. lia.
Qed.

Lemma substring_split (s : string) :
  forall n m k, (n + m + k <= String.length s)%nat ->
    substring n m s ++ substring (n + m) k s = substring n (m + k) s.
Proof.
  induction s as [|c s IH]; intros n m k H.
  - cbn in H. assert (n = O) as -> by lia. assert (m = O) as -> by lia.
    assert (k = O) as -> by lia. reflexivity.
  - destruct n as [|n].
    + destruct m as [|m]; [reflexivity|].
      cbn [substring Nat.add String.append]. f_equal.
      apply (IH 0%nat m k). cbn in *. lia.
    + cbn [substring Nat.add]. apply IH. cbn in *. lia.
Qed.

Lemma slice_len (s : string) (i j : Z) :
  0 <= i <= j -> j <= len s -> len (slice s i j) = j - i.
Proof.
  intros H1 H2. unfold slice, len in *. rewrite substring_length; lia.
Qed.

Lemma slice_split (s : string) (i j : Z) :
  0 <= i <= j -> j <= len s -> slice s i j ++ sliceFrom s j = sliceFrom s i.
Proof.
  intros H1 H2. unfold sliceFrom, slice, len in *.
  replace (Z.to_nat j) with (Z.to_nat i + Z.to_nat (j - i))%nat by lia.
  replace (Z.to_nat (Z.of_nat (String.length s) - i))
    with (Z.to_nat (j - i) + Z.to_nat (Z.of_nat (String.length s) - j))%nat
    by lia.
  apply substring_split. lia.
Qed.

Lemma writeChunks_past_the_end (s : string) (fuel : nat) (i : Z) :
  len s <= i -> writeChunks fuel i s = "".
Proof.
  intros H. destruct fuel; [reflexivity|]. cbn [writeChunks].
  replace (i <? len s) with false by (symmetry; apply Z.ltb_ge; lia).
  reflexivity.
Qed.

Lemma writeChunks_from (s : string) (fuel : nat) :
  forall i, 0 <= i <= len s -> len s - i <= 76 * Z.of_nat fuel ->
    exists chunks,
      writeChunks fuel i s = flatten (map (fun c => c ++ CRLF) chunks)
      /\ flatten chunks = sliceFrom s i
      /\ Forall (fun c => 1 <= len c <= 76) chunks
      /\ Forall (fun c => len c = 76) (removelast chunks).
Proof.
  assert (Hend : sliceFrom s (len s) = "").
  { unfold sliceFrom, slice. fold (len s). rewrite Z.sub_diag.
    apply substring_zero. }
  induction fuel as [|f IH]; intros i Hi Hf.
  - exists []. assert (i = len s) as -> by lia.
    repeat split; try constructor. now rewrite Hend.
  - cbn [writeChunks].
    destruct (i <? len s) eqn:E; [apply Z.ltb_lt in E | apply Z.ltb_ge in E].
    + destruct (Z_lt_ge_dec (i + 76) (len s)) as [Hlt|Hge].
      * replace (i + 76 >? len s) with false
          by (symmetry; rewrite Z.gtb_ltb; apply Z.ltb_ge; lia).
        destruct (IH (i + 76)) as (chunks & H1 & H2 & H3 & H4); try lia.
        pose proof (slice_len s i (i + 76) ltac:(lia) ltac:(lia)) as HL.
        exists (slice s i (i + 76) :: chunks).
        split; [cbn [map flatten fold_right]; rewrite H1, append_assoc;
                reflexivity|].
        split; [cbn [flatten fold_right]; fold (flatten chunks);
                rewrite H2; apply slice_split; lia|].
        split; [constructor; [lia|assumption]|].
        destruct chunks as [|c chunks].
        -- exfalso. cbn in H2.
           assert (HZ : len (sliceFrom s (i + 76)) = 0)
             by (rewrite <- H2; reflexivity).
           unfold sliceFrom in HZ. fold (len s) in HZ.
           rewrite slice_len in HZ; lia.
        -- change (removelast (slice s i (i + 76) :: c :: chunks))
             with (slice s i (i + 76) :: removelast (c :: chunks)).
           constructor; [lia|assumption].
      * assert (He : (if i + 76 >? len s then len s else i + 76) = len s).
        { destruct (i + 76 >? len s) eqn:G; [reflexivity|].
          rewrite Z.gtb_ltb in G. apply Z.ltb_ge in G. lia. }
        rewrite He, (writeChunks_past_the_end s f (i + 76)) by lia.
        pose proof (slice_len s i (len s) ltac:(lia) ltac:(lia)) as HL.
        exists [slice s i (len s)].
        split; [cbn [map flatten fold_right];
                now rewrite !append_nil_r|].
        split; [cbn [flatten fold_right]; now rewrite append_nil_r|].
        split; [constructor; [lia|constructor]|constructor].
    + exists []. assert (i = len s) as -> by lia.
      repeat split; try constructor. now rewrite Hend.
Qed.

(** The attachment loop cuts the encoded attachment into lines: the
    pieces written, each followed by CRLF, put together again give the
    encoded text; none is empty or longer than 76 bytes, and all but the
    last are exactly 76 bytes long. The number of iterations the model
    allows for is enough for every input. *)
Theorem writeChunks_wraps_at_76 (adifB64 : string) :
  exists chunks,
    writeChunks (S (String.length adifB64)) 0 adifB64
    = flatten (map (fun c => c ++ CRLF) chunks)
    /\ flatten chunks = adifB64
    /\ Forall (fun c => 1 <= len c <= 76) chunks
    /\ Forall (fun c => len c = 76) (removelast chunks).
Proof.
  pose proof (len_nonneg adifB64) as Hn.
  destruct (writeChunks_from adifB64 (S (String.length adifB64)) 0)
    as (chunks & H1 & H2 & H3 & H4); [lia | unfold len; lia |].
  exists chunks. split; [exact H1|]. split; [|split; assumption].
  rewrite H2. apply (sliceFrom_append "" adifB64).
Qed.
(* ================================================================== *)
(** * The two revisions of the negotiator                              *)
(* ================================================================== *)

Section Revisions.
Context {Net : Type} {peer : Peer Net}.

Lemma Part000_rcptEach_Internal (op : Op) (to : list string) :
  forall (n : Net) (tr : Trace) (r : option error) (st : Net * Trace),
    Internal.rcptEach to (n, tr) = (r, st) ->
    Part000.rcptEach op to (n, tr) = (option_map (Part000.wrap op) r, st).
Proof.
  induction to as [|a to IH]; intros n tr r st.
  - cbn. now intros [= <- <-].
  - cbn [Internal.rcptEach Part000.rcptEach].
    unfold orReturn, sbind, sret, issue. cbn [fst snd].
    destruct (respond n (Rcpt a)) as [[e|] n1]; cbv beta iota.
    + now intros [= <- <-].
    + apply IH.
Qed.

(** Run the recipients loop of both revisions side by side. *)
Ltac both_declare :=
  match goal with
  | |- context [Internal.rcptEach ?to (?n, ?tr)] =>
      let r := fresh "r" in
      let st := fresh "st" in
      let E := fresh "E" in
      destruct (Internal.rcptEach to (n, tr)) as [r st] eqn:E;
      rewrite (Part000_rcptEach_Internal _ to n tr r st E);
      destruct r; cbn [option_map]; cbv beta iota; cbn [fst snd]
  end.

Ltac agree :=
  cbn [fst snd]; split; [reflexivity | split; congruence].

Lemma sendWithClient_revisions
    (host : string) (auth : option PlainAuth) (from : string)
    (to : list string) (msg : string) (alreadyTLS : bool)
    (n : Net) (tr : Trace) :
  let a := Internal.sendWithClient host auth from to msg alreadyTLS (n, tr) in
  let b := Part000.sendWithClient host auth from to msg alreadyTLS (n, tr) in
  snd a = snd b /\ (fst a = None <-> fst b = None).
Proof.
  cbv zeta.
  unfold Internal.sendWithClient, Part000.sendWithClient,
    defer, orReturn, sbind, sret, issue, Extension;
  cbn [fst snd].
  destruct alreadyTLS, auth; cbn [negb];
    repeat first [answer | both_declare]; agree.
Qed.

Lemma sendWithClient_revisions_inv
    (host : string) (auth : option PlainAuth) (from : string)
    (to : list string) (msg : string) (alreadyTLS : bool)
    (n : Net) (tr : Trace) (ra rb : option error) (sa sb : Net * Trace) :
  Internal.sendWithClient host auth from to msg alreadyTLS (n, tr) = (ra, sa) ->
  Part000.sendWithClient host auth from to msg alreadyTLS (n, tr) = (rb, sb) ->
  sa = sb /\ (ra = None <-> rb = None).
Proof.
  intros Ea Eb.
  pose proof (sendWithClient_revisions host auth from to msg alreadyTLS n tr)
    as H.
  cbv zeta in H. rewrite Ea, Eb in H. exact H.
Qed.

(** Run the session of both revisions side by side. *)
Ltac both_sessions :=
  match goal with
  | |- context [Internal.sendWithClient ?h ?a ?f ?t ?m ?b (?n, ?tr)] =>
      let H := fresh "H" in
      let H1 := fresh "H" in
      let H2 := fresh "H" in
      let ra := fresh "ra" in
      let rb := fresh "rb" in
      let sa := fresh "sa" in
      let sb := fresh "sb" in
      let Ea := fresh "E" in
      let Eb := fresh "E" in
      destruct (Internal.sendWithClient h a f t m b (n, tr)) as [ra sa] eqn:Ea;
      destruct (Part000.sendWithClient h a f t m b (n, tr)) as [rb sb] eqn:Eb;
      pose proof (sendWithClient_revisions_inv h a f t m b n tr _ _ _ _ Ea Eb)
        as H;
      clear Ea Eb; destruct H as [<- [H1 H2]];
      destruct ra, rb;
      try (specialize (H1 eq_refl); discriminate);
      try (specialize (H2 eq_refl); discriminate);
      clear H1 H2; cbv beta iota; cbn [fst snd]
  end.

(** The later revision of the negotiator changes how errors are wrapped
    and nothing else: on the same peer the two revisions issue the same
    commands, receive the same answers and leave the peer in the same
    state, and one returns nil exactly when the other does. *)
Theorem revisions_differ_in_errors_only
    (timeout : Z) (addr : string) (auth : option PlainAuth) (from : string)
    (to : list string) (msg : string) (n : Net) (tr : Trace) :
  let a := Internal.sendMailWithTLS timeout addr auth from to msg (n, tr) in
  let b := Part000.sendMailWithTLS timeout addr auth from to msg (n, tr) in
  snd a = snd b /\ (fst a = None <-> fst b = None).
Proof.
  cbv zeta.
  unfold Internal.sendMailWithTLS, Part000.sendMailWithTLS,
    Internal.tryImplicitTLS, Part000.tryImplicitTLS,
    Internal.tryStartTLS, Part000.tryStartTLS, sbind, sret, issue.
  cbn [fst snd].
  destruct (net.SplitHostPort addr) as [[host port]|err]; [|agree].
  repeat first [answer | both_sessions
               | match goal with sa : (Net * Trace)%type |- _ =>
                   destruct sa as [? ?]; cbn [fst snd] end];
    agree.
Qed.

End Revisions.
(* ================================================================== *)
(** * The retry parameters                                             *)
(* ================================================================== *)


Lemma Send_rejects_empty_sender_witness :
  Send (tr := alwaysDown) {| From := " "; To := ["to@example.com"]; Msg := "hi" |}
    (machineOf (initialized cfgNoSender) 0%nat)
  = (Returns (Some (errors.Msg "email from address cannot be empty"
                      (errors.New "email.Service.Send"))),
     machineOf (initialized cfgNoSender) 0%nat).
Proof.
  apply (Send_rejects_empty_sender (tr := alwaysDown) _ _ cfgNoSender);
    reflexivity.
Defined.
